(** * Disaster risk dashboard: event aggregation, filtering and map projection

    A shallow embedding of the dashboard's front end:
    - [lib/api.ts]            the event record, the feed response and
                              [fetchEvents],
    - [app/page.tsx]          [badgeClass], [hazardPill], [load] with its
                              cancellation flag, [filteredEvents], the
                              banner and the list view,
    - [components/EventsMap]  [colorForLevel], [validEvents], [heatPoints],
                              the glyphs,
    - [components/HeatLayer]  the tuples handed to the heat layer,
    - [components/IntensityLegend]  the summary line and the collapsed state,
    - [components/MagnitudeSlider]  [clamp], the two change handlers and the
                              highlighted range.

    JavaScript numbers are IEEE 754 binary64 values; they are embedded as the
    primitive [float] of the kernel, which is the same format with the same
    rounding (to nearest, ties to even).  The specification of the float
    primitives ([FloatAxioms]) is used where an argument is about all
    numbers rather than about a literal. *)

From Stdlib Require Import Bool List String Ascii ZArith Lia.
From Stdlib Require Import Permutation Sorted.
From Stdlib Require Import Floats.
From Stdlib Require Import DecimalString.
Import ListNotations.

Set Warnings "-inexact-float".

Local Open Scope string_scope.
Local Open Scope list_scope.

(* ================================================================== *)
(** ** JavaScript values and library routines used by the code          *)
(* ================================================================== *)

Module JS.

(** A JavaScript number. *)
Definition number := float.

(** The values a JSON field read without validation can hold, as far as the
    code tells them apart ([typeof x === "number"]). *)
Inductive value :=
| Undefined
| Null
| Num (n : number)
| Str (s : string)
| Boolean (b : bool).

(** [typeof v === "number"] *)
Definition typeof_number (v : value) : bool :=
  match v with Num _ => true | _ => false end.

(** [Number.isNaN(v)]: false for everything that is not the number NaN. *)
Definition Number_isNaN (v : value) : bool :=
  match v with Num n => PrimFloat.is_nan n | _ => false end.

(** [Number.isFinite(v)] *)
Definition Number_isFinite (v : value) : bool :=
  match v with Num n => PrimFloat.is_finite n | _ => false end.

(** [x ?? d] on a field that is a [T], [null] or [undefined]. *)
Definition nullish {A : Type} (x : option A) (d : A) : A :=
  match x with Some a => a | None => d end.

(** Truthiness of a string-or-nullish field: [null], [undefined] and the
    empty string are falsy. *)
Definition truthy (s : option string) : bool :=
  match s with
  | Some EmptyString => false
  | Some _ => true
  | None => false
  end.

(** [a === b] and [a !== b] on numbers (IEEE equality: NaN differs from
    everything, the two zeros are equal). *)
Definition strict_eq (a b : number) : bool := PrimFloat.eqb a b.
Definition strict_ne (a b : number) : bool := negb (PrimFloat.eqb a b).

(** [Math.min(a, b)] and [Math.max(a, b)]: NaN if either argument is NaN,
    and -0 counts as smaller than +0. *)
Definition Math_min (a b : number) : number :=
  if PrimFloat.is_nan a || PrimFloat.is_nan b then PrimFloat.nan
  else if PrimFloat.ltb a b then a
  else if PrimFloat.ltb b a then b
  else if PrimFloat.get_sign a then a else b.

Definition Math_max (a b : number) : number :=
  if PrimFloat.is_nan a || PrimFloat.is_nan b then PrimFloat.nan
  else if PrimFloat.ltb a b then b
  else if PrimFloat.ltb b a then a
  else if PrimFloat.get_sign a then b else a.

(** *** [Array.prototype.sort(comparefn)]

    The routine is the engine's.  ECMAScript fixes how the comparator is
    read: through the sign of its result [v] only, a NaN result counting as
    [+0] (SortCompare).  It fixes the outcome only for a comparator that is
    consistent on the elements (its ties form an equivalence and its order
    is transitive): the result is then sorted and stable, hence the same in
    every engine.  For a comparator that is not consistent (its NaN answers
    can make ties that are not transitive) the result is a rearrangement of
    the elements that the engine chooses.

    [Array_sort] is a stable insertion sort that reads the comparator in
    that way.  It stands for the engine's routine where the comparator is
    consistent; of its result on other inputs only what holds of every
    rearrangement is used. *)
Section Sort.
Context {A : Type}.
Variable comparefn : A -> A -> number.

(** The verdict of SortCompare: [Gt] when [comparefn a b > 0] ([a] goes
    after [b]), [Lt] when [comparefn a b < 0], [Eq] otherwise (zero of
    either sign, or NaN). *)
Definition SortCompare (a b : A) : comparison :=
  let v := comparefn a b in
  if PrimFloat.ltb v PrimFloat.zero then Lt
  else if PrimFloat.ltb PrimFloat.zero v then Gt
  else Eq.

Fixpoint insert (x : A) (l : list A) : list A :=
  match l with
  | [] => [x]
  | y :: l' =>
      match SortCompare x y with
      | Gt => y :: insert x l'
      | _ => x :: y :: l'
      end
  end.

Fixpoint Array_sort (l : list A) : list A :=
  match l with
  | [] => []
  | x :: l' => insert x (Array_sort l')
  end.
End Sort.

End JS.

(* ================================================================== *)
(** ** lib/api.ts                                                       *)
(* ================================================================== *)

Module Api.

(** [EventItem].  Optional fields ([?: T | null]) are options; [time_utc]
    is declared a string but read with a truthiness test, so it is an
    option too.  [lat] and [lon] are read with [typeof], so they hold an
    arbitrary JSON value.  [event_type] and [severity_level] are the
    run-time strings. *)
Record EventItem := {
  source : string;
  event_type : string;
  source_event_id : string;
  time_utc : option string;
  place : option string;
  magnitude : option JS.number;
  depth_km : option JS.number;
  lat : JS.value;
  lon : JS.value;
  severity_score : option JS.number;
  severity_level : option string;
  url : option string;
  hazard_subtype : option string
}.

(** [EventsResponse]; [events] is read as [x.events ?? []]. *)
Record EventsResponse := {
  hazard : option string;
  count : JS.number;
  events : option (list EventItem)
}.

End Api.

(* ================================================================== *)
(** ** app/page.tsx                                                     *)
(* ================================================================== *)

Module Page.
Import JS.

Abbreviation EventItem := Api.EventItem.

(** [type HazardFilter = "earthquake" | "flood" | "all"] *)
Inductive HazardFilter := Earthquake | Flood | All.

Definition hazard_string (h : HazardFilter) : string :=
  match h with
  | Earthquake => "earthquake"
  | Flood => "flood"
  | All => "all"
  end.

(** [badgeClass(level)]: a [switch] on the run-time value; [None] is
    [undefined], which matches no [case]. *)
Definition badgeClass (level : option string) : string :=
  match level with
  | Some l =>
      if (l =? "critical")%string then "bg-red-600 text-white"
      else if (l =? "high")%string then "bg-orange-600 text-white"
      else if (l =? "medium")%string then "bg-yellow-500 text-black"
      else "bg-green-600 text-white"
  | None => "bg-green-600 text-white"
  end.

Definition hazardPill (e : EventItem) : string :=
  if (Api.event_type e =? "earthquake")%string then "EQ"
  else if (Api.event_type e =? "flood")%string then "FLOOD"
  else "EVENT".

(** The three [useState] cells of [Home] that [load] writes. *)
Record State := {
  events : list EventItem;
  loading : bool;
  error : option string
}.

Definition setEvents (v : list EventItem) (s : State) : State :=
  {| events := v; loading := loading s; error := error s |}.
Definition setLoading (v : bool) (s : State) : State :=
  {| events := events s; loading := v; error := error s |}.
Definition setError (v : option string) (s : State) : State :=
  {| events := events s; loading := loading s; error := v |}.

(** [useState([])], [useState(true)], [useState(null)] *)
Definition initial : State :=
  {| events := []; loading := true; error := None |}.

(** What a [catch (e: any)] can receive: a nullish value, or an object
    whose [message] is a string or missing. *)
Inductive thrown :=
| ThrownNullish
| ThrownObject (message : option string).

(** [e?.message] *)
Definition opt_message (e : thrown) : option string :=
  match e with
  | ThrownNullish => None
  | ThrownObject m => m
  end.

Inductive settled (A : Type) :=
| Fulfilled (a : A)
| Rejected (e : thrown).
Arguments Fulfilled {A} a.
Arguments Rejected {A} e.

(** How the two requests of one cycle end.  [eq_first] tells which of
    them settles first; [Promise.all] rejects with the first rejection. *)
Record Fetched := {
  eq_result : settled Api.EventsResponse;
  fl_result : settled Api.EventsResponse;
  eq_first : bool
}.

Definition Promise_all (f : Fetched)
  : settled (Api.EventsResponse * Api.EventsResponse) :=
  match eq_result f, fl_result f with
  | Fulfilled eq, Fulfilled fl => Fulfilled (eq, fl)
  | Rejected e, Fulfilled _ => Rejected e
  | Fulfilled _, Rejected e => Rejected e
  | Rejected e1, Rejected e2 => Rejected (if eq_first f then e1 else e2)
  end.

Section Load.
(** [Date.parse]: the engine's; a time value in milliseconds, or NaN. *)
Variable Date_parse : string -> number.

(** [t ? Date.parse(t) : 0] *)
Definition time_value (t : option string) : number :=
  match t with
  | Some s => if truthy t then Date_parse s else 0%float
  | None => 0%float
  end.

(** The comparator handed to [merged.sort]. *)
Definition compareEvents (a b : EventItem) : number :=
  let as_ := nullish (Api.severity_score a) 0%float in
  let bs := nullish (Api.severity_score b) 0%float in
  if strict_ne bs as_ then (bs - as_)%float
  else
    let at_ := time_value (Api.time_utc a) in
    let bt := time_value (Api.time_utc b) in
    (bt - at_)%float.

(** [[...(eq.events ?? []), ...(fl.events ?? [])]] followed by the sort. *)
Definition merge (eq fl : Api.EventsResponse) : list EventItem :=
  Array_sort compareEvents
    (nullish (Api.events eq) [] ++ nullish (Api.events fl) []).

(** [load] up to its [await]: the two unguarded writes. *)
Definition load_begin (s : State) : State :=
  setError None (setLoading true s).

(** [load] from the [await] on, run when both requests have settled.
    [cancelled] is the flag of the enclosing effect as it stands then. *)
Definition load_resume (cancelled : bool) (f : Fetched) (s : State) : State :=
  let s1 :=
    match Promise_all f with
    | Fulfilled (eq, fl) =>
        let merged := merge eq fl in
        if negb cancelled then setEvents merged s else s
    | Rejected e =>
        if negb cancelled
        then setError (Some (nullish (opt_message e) "Failed to load events")) s
        else s
    end in
  if negb cancelled then setLoading false s1 else s1.

(** The effect of [useEffect]: the flag, the interval timer and the
    cycles that are awaiting their requests, around the state. *)
Record Poller := {
  view : State;
  cancelled : bool;
  timer : bool;
  inflight : nat
}.

Inductive action :=
| Tick                    (* the interval fires: [load()] *)
| Settle (f : Fetched)    (* the requests of one awaiting cycle settle *)
| Stop.                   (* the clean-up function of the effect *)

(** [load(); const t = setInterval(load, 60_000);] *)
Definition mount : Poller :=
  {| view := load_begin initial; cancelled := false;
     timer := true; inflight := 1 |}.

Definition step (p : Poller) (a : action) : Poller :=
  match a with
  | Tick =>
      if timer p
      then {| view := load_begin (view p); cancelled := cancelled p;
              timer := true; inflight := S (inflight p) |}
      else p
  | Settle f =>
      match inflight p with
      | O => p
      | S n => {| view := load_resume (cancelled p) f (view p);
                  cancelled := cancelled p; timer := timer p;
                  inflight := n |}
      end
  | Stop =>
      {| view := view p; cancelled := true; timer := false;
         inflight := inflight p |}
  end.

Definition run (p : Poller) (tr : list action) : Poller :=
  fold_left step tr p.
End Load.

(** [filteredEvents] *)
Definition filteredEvents (events : list EventItem) (hazard : HazardFilter)
  : list EventItem :=
  match hazard with
  | All => events
  | _ => filter (fun e => (Api.event_type e =? hazard_string hazard)%string) events
  end.

End Page.

(* ================================================================== *)
(** ** components/EventsMap.tsx                                         *)
(* ================================================================== *)

Module EventsMap.
Import JS.

Abbreviation EventItem := Api.EventItem.

(** [type ViewMode = "events" | "heatmap"] *)
Inductive ViewMode := events_mode | heatmap_mode.

(** [colorForLevel(level?)] *)
Definition colorForLevel (level : option string) : string :=
  match level with
  | Some l =>
      if (l =? "critical")%string then "#ef4444"
      else if (l =? "high")%string then "#f97316"
      else if (l =? "medium")%string then "#eab308"
      else "#22c55e"
  | None => "#22c55e"
  end.

(** The predicate of the [validEvents] filter. *)
Definition hasCoordinates (e : EventItem) : bool :=
  typeof_number (Api.lat e) && typeof_number (Api.lon e)
  && negb (Number_isNaN (Api.lat e)) && negb (Number_isNaN (Api.lon e)).

(** [(events ?? []).filter(...)] *)
Definition validEvents (events : option (list EventItem)) : list EventItem :=
  filter hasCoordinates (nullish events []).

(** The objects built by [heatPoints]; [HeatPoint] in HeatLayer.tsx. *)
Record HeatPoint := {
  lat : value;
  lon : value;
  intensity : option number
}.

Definition heatPoint (e : EventItem) : HeatPoint :=
  {| lat := Api.lat e;
     lon := Api.lon e;
     intensity := Some (nullish (Api.severity_score e) 1%float) |}.

Definition heatPoints (valid : list EventItem) : list HeatPoint :=
  map heatPoint valid.

(** [counts] *)
Definition counts (valid : list EventItem) : nat * nat :=
  (List.length (filter (fun e => (Api.event_type e =? "earthquake")%string) valid),
   List.length (filter (fun e => (Api.event_type e =? "flood")%string) valid)).

(** A glyph of the events mode: a circle for an earthquake, a triangle for
    everything else, at the event's coordinates and in its level's colour. *)
Inductive Shape := Circle | Triangle.

Record Glyph := {
  glyph_key : string;
  position : value * value;
  shape : Shape;
  color : string
}.

Definition glyph (e : EventItem) : Glyph :=
  {| glyph_key := Api.source e ++ "-" ++ Api.source_event_id e;
     position := (Api.lat e, Api.lon e);
     shape := if (Api.event_type e =? "earthquake")%string then Circle else Triangle;
     color := colorForLevel (Api.severity_level e) |}.

(** [view === "events" && validEvents.map(...)] *)
Definition glyphs (view : ViewMode) (events : option (list EventItem)) : list Glyph :=
  match view with
  | events_mode => map glyph (validEvents events)
  | heatmap_mode => []
  end.

End EventsMap.

(* ================================================================== *)
(** ** components/HeatLayer.tsx                                         *)
(* ================================================================== *)

Module HeatLayer.
Import JS.

Definition hasCoordinates (p : EventsMap.HeatPoint) : bool :=
  typeof_number (EventsMap.lat p) && typeof_number (EventsMap.lon p)
  && negb (Number_isNaN (EventsMap.lat p)) && negb (Number_isNaN (EventsMap.lon p)).

(** [[p.lat, p.lon, p.intensity ?? 1]] *)
Definition tuple (p : EventsMap.HeatPoint) : value * value * number :=
  (EventsMap.lat p, EventsMap.lon p, nullish (EventsMap.intensity p) 1%float).

(** The array given to [L.heatLayer]; [None] when the effect returns
    before building a layer ([points.length === 0]). *)
Definition heatLayerInput (points : list EventsMap.HeatPoint)
  : option (list (value * value * number)) :=
  match points with
  | [] => None
  | _ => Some (map tuple (filter hasCoordinates points))
  end.

End HeatLayer.

(** The density estimator of the heat map, end to end: the points
    [EventsMap] computes from its events, as [HeatLayer] weights them. *)
Definition estimate (events : option (list Api.EventItem))
  : list (JS.value * JS.value * JS.number) :=
  map HeatLayer.tuple
    (filter HeatLayer.hasCoordinates
       (EventsMap.heatPoints (EventsMap.validEvents events))).

(* ================================================================== *)
(** ** components/MagnitudeSlider.tsx                                   *)
(* ================================================================== *)

Module MagnitudeSlider.
Import JS.

(** The props that the handlers read. *)
Record Props := {
  min : number;
  max : number;
  step : number
}.

(** The two [useState] cells. *)
Record Thumbs := {
  minVal : number;
  maxVal : number
}.

(** [const clamp = (v) => Math.min(max, Math.max(min, v))] *)
Definition clamp (p : Props) (v : number) : number :=
  Math_min (max p) (Math_max (min p) v).

(** [const minGap = step] *)
Definition minGap (p : Props) : number := step p.

(** The [onChange] of the lower thumb; [input] is [Number(e.target.value)]. *)
Definition onMinChange (p : Props) (input : number) (t : Thumbs) : Thumbs :=
  let v := clamp p input in
  {| minVal := Math_min v (maxVal t - minGap p)%float;
     maxVal := maxVal t |}.

(** The [onChange] of the upper thumb. *)
Definition onMaxChange (p : Props) (input : number) (t : Thumbs) : Thumbs :=
  let v := clamp p input in
  {| minVal := minVal t;
     maxVal := Math_max v (minVal t + minGap p)%float |}.

Inductive change :=
| MinThumb (input : number)
| MaxThumb (input : number).

Definition handle (p : Props) (t : Thumbs) (c : change) : Thumbs :=
  match c with
  | MinThumb v => onMinChange p v t
  | MaxThumb v => onMaxChange p v t
  end.

End MagnitudeSlider.

(* ================================================================== *)
(** ** An instance of [Date.parse] for the examples                     *)
(* ================================================================== *)

Module Dates.
Local Open Scope Z_scope.

(** The number with integer value [z] (exact for |z| < 2^53). *)
Definition of_Z (z : Z) : JS.number :=
  if z <? 0
  then PrimFloat.opp (PrimFloat.of_uint63 (Uint63.of_Z (- z)))
  else PrimFloat.of_uint63 (Uint63.of_Z z).

Definition digit (c : ascii) : option Z :=
  let n := Z.of_nat (nat_of_ascii c) in
  if (48 <=? n) && (n <=? 57) then Some (n - 48) else None.

Fixpoint decimal (acc : Z) (l : list ascii) : option Z :=
  match l with
  | [] => Some acc
  | c :: l' =>
      match digit c with
      | Some d => decimal (10 * acc + d) l'
      | None => None
      end
  end.

Definition leap (y : Z) : bool :=
  ((y mod 4 =? 0) && negb (y mod 100 =? 0)) || (y mod 400 =? 0).

Definition days_in_month (y m : Z) : Z :=
  if m =? 2 then (if leap y then 29 else 28)
  else if (m =? 4) || (m =? 6) || (m =? 9) || (m =? 11) then 30
  else 31.

(** Days from 1970-01-01 to the civil date [y]-[m]-[d]. *)
Definition days_from_civil (y m d : Z) : Z :=
  let y' := if m <=? 2 then y - 1 else y in
  let era := y' / 400 in
  let yoe := y' - era * 400 in
  let doy := (153 * (if 2 <? m then m - 3 else m + 9) + 2) / 5 + d - 1 in
  let doe := yoe * 365 + yoe / 4 - yoe / 100 + doy in
  era * 146097 + doe - 719468.

(** [Date.parse] on the one form every engine must read the same way,
    [YYYY-MM-DDTHH:mm:ssZ]: the time value in milliseconds.  Anything else
    is answered with NaN here; the strings of the examples are of that
    form, or are no date in any form. *)
Definition Date_parse (s : string) : JS.number :=
  match list_ascii_of_string s with
  | [y1; y2; y3; y4; "-"; m1; m2; "-"; d1; d2; "T";
     h1; h2; ":"; n1; n2; ":"; s1; s2; "Z"]%char =>
      match decimal 0 [y1; y2; y3; y4], decimal 0 [m1; m2], decimal 0 [d1; d2],
            decimal 0 [h1; h2], decimal 0 [n1; n2], decimal 0 [s1; s2] with
      | Some y, Some m, Some d, Some h, Some n, Some sec =>
          if (1 <=? m) && (m <=? 12) && (1 <=? d) && (d <=? days_in_month y m)
             && (h <=? 23) && (n <=? 59) && (sec <=? 59)
          then of_Z ((days_from_civil y m d * 86400 + h * 3600 + n * 60 + sec) * 1000)
          else PrimFloat.nan
      | _, _, _, _, _, _ => PrimFloat.nan
      end
  | _ => PrimFloat.nan
  end.

End Dates.

(* ================================================================== *)
(** ** Arrays as shared objects                                         *)
(* ================================================================== *)

(** Arrays of events live in a store and are passed by reference, so that
    what a call writes, and to which array, can be stated. *)
Module Store.

Definition ref := nat.
Definition store := list (list Api.EventItem).

Definition read (h : store) (r : ref) : list Api.EventItem := nth r h [].

(** A fresh array. *)
Definition alloc (h : store) (a : list Api.EventItem) : store * ref :=
  (h ++ [a], List.length h).

(** [arr.filter(f)]: reads the receiver, returns a new array. *)
Definition Array_filter (f : Api.EventItem -> bool) (h : store) (r : ref)
  : store * ref :=
  alloc h (filter f (read h r)).

(** [filteredEvents] on references: the very array [events] for "all", a
    new array otherwise. *)
Definition filteredEvents (h : store) (events : ref) (hazard : Page.HazardFilter)
  : store * ref :=
  match hazard with
  | Page.All => (h, events)
  | _ =>
      Array_filter
        (fun e => (Api.event_type e =? Page.hazard_string hazard)%string) h events
  end.

(** [validEvents] on references; [events ?? []] is a new empty array when
    the prop is nullish. *)
Definition validEvents (h : store) (events : option ref) : store * ref :=
  match events with
  | Some r => Array_filter EventsMap.hasCoordinates h r
  | None =>
      let '(h1, r) := alloc h [] in
      Array_filter EventsMap.hasCoordinates h1 r
  end.

End Store.

(* ================================================================== *)
(** ** The order of binary64 numbers, read off their representation     *)
(* ================================================================== *)

Module FloatOrder.

(** A number that is not NaN is placed by three integers compared
    lexicographically: its class and sign, then exponent, then mantissa
    (both negated for a negative number). *)
Definition SFrank (f : spec_float) : Z * Z * Z :=
  match f with
  | S754_nan => (0, 0, 0)%Z
  | S754_zero _ => (0, 0, 0)%Z
  | S754_infinity true => (-2, 0, 0)%Z
  | S754_infinity false => (2, 0, 0)%Z
  | S754_finite true m e => (-1, - e, Zneg m)%Z
  | S754_finite false m e => (1, e, Zpos m)%Z
  end.

Definition rank (x : float) : Z * Z * Z := SFrank (Prim2SF x).

Definition lex3 (a b : Z * Z * Z) : comparison :=
  let '(a1, a2, a3) := a in
  let '(b1, b2, b3) := b in
  match (a1 ?= b1)%Z with
  | Eq => match (a2 ?= b2)%Z with
          | Eq => (a3 ?= b3)%Z
          | c => c
          end
  | c => c
  end.

(** Pairs of ranks, the first component first. *)
Definition lex6 (a b : (Z * Z * Z) * (Z * Z * Z)) : comparison :=
  match lex3 (fst a) (fst b) with
  | Eq => lex3 (snd a) (snd b)
  | c => c
  end.

(** A result that is neither zero nor NaN and has the sign [s]. *)
Definition signed_nonzero (s : bool) (f : spec_float) : Prop :=
  (exists m e, f = S754_finite s m e) \/ f = S754_infinity s.

End FloatOrder.

(* ================================================================== *)
(** ** The orders and predicates that the properties speak of           *)
(* ================================================================== *)

Module Ranking.
Import JS.

Section Keys.
Variable Date_parse : string -> number.

(** The two keys of the ranking.  The score key is the score, and 0 for an
    event without one.  The time key is what [Date.parse] makes of
    [time_utc], and 0, the epoch, for an event whose [time_utc] is missing
    or empty. *)
Definition score_key (e : Api.EventItem) : number :=
  match Api.severity_score e with
  | Some score => score
  | None => 0%float
  end.

Definition time_key (e : Api.EventItem) : number :=
  match Api.time_utc e with
  | Some EmptyString => 0%float
  | Some t => Date_parse t
  | None => 0%float
  end.

(** [a] ranks strictly before [b]: a higher score, or the same score and a
    later time. *)
Definition precedes (a b : Api.EventItem) : bool :=
  PrimFloat.ltb (score_key b) (score_key a)
  || (PrimFloat.eqb (score_key a) (score_key b)
      && PrimFloat.ltb (time_key b) (time_key a)).

(** Neither key of the event is NaN. *)
Definition keys_defined (e : Api.EventItem) : bool :=
  negb (PrimFloat.is_nan (score_key e)) && negb (PrimFloat.is_nan (time_key e)).

(** Where the two keys place the event among the numbers. *)
Definition event_rank (e : Api.EventItem) : (Z * Z * Z) * (Z * Z * Z) :=
  (FloatOrder.rank (score_key e), FloatOrder.rank (time_key e)).

(** The events with score key [s] and time key [t]. *)
Definition has_keys (s t : number) (e : Api.EventItem) : bool :=
  PrimFloat.eqb (score_key e) s && PrimFloat.eqb (time_key e) t.

(** The time key in the specification's words: an absent or unparseable
    [timeUtc] is the earliest possible time. *)
Definition spec_time_key (e : Api.EventItem) : number :=
  match Api.time_utc e with
  | Some s =>
      if truthy (Api.time_utc e) && negb (PrimFloat.is_nan (Date_parse s))
      then Date_parse s
      else PrimFloat.neg_infinity
  | None => PrimFloat.neg_infinity
  end.

Definition spec_precedes (a b : Api.EventItem) : bool :=
  PrimFloat.ltb (score_key b) (score_key a)
  || (PrimFloat.eqb (score_key a) (score_key b)
      && PrimFloat.ltb (spec_time_key b) (spec_time_key a)).

End Keys.

(** A list in which no element ranks strictly before an earlier one. *)
Definition ranked (before : Api.EventItem -> Api.EventItem -> bool)
  (l : list Api.EventItem) : Prop :=
  StronglySorted (fun a b => before b a = false) l.

End Ranking.

(** [subseq l1 l2]: [l1] is [l2] with some elements left out, in order. *)
Inductive subseq {A : Type} : list A -> list A -> Prop :=
| subseq_nil : subseq [] []
| subseq_skip (x : A) (l1 l2 : list A) : subseq l1 l2 -> subseq l1 (x :: l2)
| subseq_keep (x : A) (l1 l2 : list A) : subseq l1 l2 -> subseq (x :: l1) (x :: l2).

(** Record updates used to vary one field of an event. *)
Definition with_magnitude (m : option JS.number) (e : Api.EventItem) : Api.EventItem :=
  {| Api.source := Api.source e; Api.event_type := Api.event_type e;
     Api.source_event_id := Api.source_event_id e; Api.time_utc := Api.time_utc e;
     Api.place := Api.place e; Api.magnitude := m; Api.depth_km := Api.depth_km e;
     Api.lat := Api.lat e; Api.lon := Api.lon e;
     Api.severity_score := Api.severity_score e;
     Api.severity_level := Api.severity_level e; Api.url := Api.url e;
     Api.hazard_subtype := Api.hazard_subtype e |}.

Definition with_coordinates (la lo : JS.value) (e : Api.EventItem) : Api.EventItem :=
  {| Api.source := Api.source e; Api.event_type := Api.event_type e;
     Api.source_event_id := Api.source_event_id e; Api.time_utc := Api.time_utc e;
     Api.place := Api.place e; Api.magnitude := Api.magnitude e;
     Api.depth_km := Api.depth_km e; Api.lat := la; Api.lon := lo;
     Api.severity_score := Api.severity_score e;
     Api.severity_level := Api.severity_level e; Api.url := Api.url e;
     Api.hazard_subtype := Api.hazard_subtype e |}.

(** A coordinate that is missing, not a number, or NaN. *)
Definition unusable (v : JS.value) : Prop :=
  match v with
  | JS.Num n => PrimFloat.is_nan n = true
  | _ => True
  end.

(** The slider's invariant as stated: both thumbs within [[min, max]] and
    at least one step apart. *)
Definition within_bounds (p : MagnitudeSlider.Props) (t : MagnitudeSlider.Thumbs) : bool :=
  PrimFloat.leb (MagnitudeSlider.min p) (MagnitudeSlider.minVal t)
  && PrimFloat.leb (MagnitudeSlider.minVal t) (MagnitudeSlider.max p)
  && PrimFloat.leb (MagnitudeSlider.min p) (MagnitudeSlider.maxVal t)
  && PrimFloat.leb (MagnitudeSlider.maxVal t) (MagnitudeSlider.max p).

Definition gap_kept (p : MagnitudeSlider.Props) (t : MagnitudeSlider.Thumbs) : bool :=
  PrimFloat.leb (MagnitudeSlider.minVal t)
    (MagnitudeSlider.maxVal t - MagnitudeSlider.step p)%float.

Definition slider_invariant (p : MagnitudeSlider.Props) (t : MagnitudeSlider.Thumbs) : bool :=
  within_bounds p t && gap_kept p t.

(* ================================================================== *)
(** ** Sample feeds, used to run the definitions                        *)
(* ================================================================== *)

Module Examples.
Import JS.

Definition quake (id : string) (time : option string) (score mag : option number)
  (la lo : value) : Api.EventItem :=
  {| Api.source := "usgs"; Api.event_type := "earthquake";
     Api.source_event_id := id; Api.time_utc := time;
     Api.place := Some "10 km N of Somewhere"; Api.magnitude := mag;
     Api.depth_km := Some 10%float; Api.lat := la; Api.lon := lo;
     Api.severity_score := score; Api.severity_level := Some "medium";
     Api.url := None; Api.hazard_subtype := None |}.

Definition flood (id : string) (time : option string) (score : option number)
  (la lo : value) : Api.EventItem :=
  {| Api.source := "nws"; Api.event_type := "flood";
     Api.source_event_id := id; Api.time_utc := time;
     Api.place := Some "River Somewhere"; Api.magnitude := None;
     Api.depth_km := None; Api.lat := la; Api.lon := lo;
     Api.severity_score := score; Api.severity_level := Some "high";
     Api.url := None; Api.hazard_subtype := Some "Flood Warning" |}.

Definition response (l : list Api.EventItem) : Api.EventsResponse :=
  {| Api.hazard := None;
     Api.count := PrimFloat.of_uint63 (Uint63.of_Z (Z.of_nat (List.length l)));
     Api.events := Some l |}.

Definition both (eq fl : list Api.EventItem) : Page.Fetched :=
  {| Page.eq_result := Page.Fulfilled (response eq);
     Page.fl_result := Page.Fulfilled (response fl);
     Page.eq_first := true |}.

Definition noon : option string := Some "2024-05-01T12:00:00Z".
Definition morning : option string := Some "2024-05-01T06:00:00Z".

(** An undated earthquake, and a flood record dated before 1970. *)
Definition quake_undated : Api.EventItem :=
  quake "q0" None (Some 5%float) (Some 4.5%float) (Num 10%float) (Num 20%float).
Definition flood_1969 : Api.EventItem :=
  flood "f0" (Some "1969-07-20T20:17:40Z") (Some 5%float) (Num 30%float) (Num 40%float).

(** An earthquake whose time is no date, and a flood with a proper one. *)
Definition quake_garbled : Api.EventItem :=
  quake "q1" (Some "not a date") (Some 5%float) (Some 4.5%float)
    (Num 10%float) (Num 20%float).
Definition flood_noon : Api.EventItem :=
  flood "f1" noon (Some 5%float) (Num 30%float) (Num 40%float).

(** A feed with every kind of key: scores 5 and 9, a missing score, a
    missing time. *)
Definition quake_5_noon : Api.EventItem :=
  quake "q2" noon (Some 5%float) (Some 5%float) (Num 10%float) (Num 20%float).
Definition quake_9_morning : Api.EventItem :=
  quake "q3" morning (Some 9%float) (Some 6.1%float) (Num 11%float) (Num 21%float).
Definition flood_unscored : Api.EventItem :=
  flood "f2" None None Null Null.
Definition flood_5_noon : Api.EventItem :=
  flood "f3" noon (Some 5%float) (Num 30%float) (Num 40%float).

(** An earthquake without a magnitude, and one at an infinite latitude. *)
Definition quake_no_magnitude : Api.EventItem :=
  quake "q4" noon (Some 3%float) None (Num 10%float) (Num 20%float).
Definition quake_off_the_map : Api.EventItem :=
  quake "q5" noon (Some 3%float) (Some 4%float) (Num PrimFloat.infinity) (Num 20%float).

(** Scores zero and missing, both with coordinates. *)
Definition quake_zero : Api.EventItem :=
  quake "q6" noon (Some 0%float) (Some 1%float) (Num 10%float) (Num 20%float).
Definition flood_unscored_located : Api.EventItem :=
  flood "f4" noon None (Num 30%float) (Num 40%float).

(** The flood request fails with a 503, the earthquake request succeeds. *)
Definition flood_down : Page.Fetched :=
  {| Page.eq_result := Page.Fulfilled (response [quake_5_noon]);
     Page.fl_result := Page.Rejected (Page.ThrownObject (Some "API 503: upstream down"));
     Page.eq_first := true |}.

(** A page that shows one event and no error. *)
Definition showing : Page.State :=
  {| Page.events := [quake_9_morning]; Page.loading := false; Page.error := None |}.

(** Sliders from 0 to 10 and from 4 to 10, step 0.1, thumbs at 4 and 6. *)
Definition slider_0_10 : MagnitudeSlider.Props :=
  {| MagnitudeSlider.min := 0%float; MagnitudeSlider.max := 10%float;
     MagnitudeSlider.step := 0.1%float |}.
Definition slider_4_10 : MagnitudeSlider.Props :=
  {| MagnitudeSlider.min := 4%float; MagnitudeSlider.max := 10%float;
     MagnitudeSlider.step := 0.1%float |}.
Definition thumbs_4_6 : MagnitudeSlider.Thumbs :=
  {| MagnitudeSlider.minVal := 4%float; MagnitudeSlider.maxVal := 6%float |}.

End Examples.

(* ================================================================== *)
(** ** lib/api.ts: [fetchEvents]                                        *)
(* ================================================================== *)

Module Fetch.
Import JS.

(** [FetchEventsParams] *)
Record FetchEventsParams := {
  hazard : option string;
  feed : option string;
  limit : option number;
  min_magnitude : option number;
  since_hours : option number;
  min_severity_level : option string
}.

(** [URLSearchParams]: the list of name-value pairs, in order. *)
Definition URLSearchParams := list (string * string).

Definition others (name : string) (q : URLSearchParams) : URLSearchParams :=
  filter (fun kv => negb (fst kv =? name)%string) q.

(** [q.set(name, value)]: the first pair of that name takes the value and
    the other pairs of that name go; without such a pair, one is appended. *)
Fixpoint set (name value : string) (q : URLSearchParams) : URLSearchParams :=
  match q with
  | [] => [(name, value)]
  | (k, v) :: q' =>
      if (k =? name)%string then (name, value) :: others name q'
      else (k, v) :: set name value q'
  end.

(** [q.get(name)] *)
Fixpoint get (name : string) (q : URLSearchParams) : option string :=
  match q with
  | [] => None
  | (k, v) :: q' => if (k =? name)%string then Some v else get name q'
  end.

(** [s.replace(/\/$/, "")]: a slash at the very end is dropped. *)
Fixpoint strip_slash (s : string) : string :=
  match s with
  | EmptyString => EmptyString
  | String c s' =>
      match s' with
      | EmptyString => if Ascii.eqb c "/" then EmptyString else s
      | _ => String c (strip_slash s')
      end
  end.

(** [x || d] on a string. *)
Definition or_else (x d : string) : string :=
  match x with
  | EmptyString => d
  | _ => x
  end.

(** [API_BASE], from [process.env.NEXT_PUBLIC_API_BASE_URL]. *)
Definition API_BASE (env : option string) : string :=
  match env with
  | Some s => or_else (strip_slash s) "http://127.0.0.1:8000"
  | None => "http://127.0.0.1:8000"
  end.

(** What reading a body gives: the value, or a rejection. *)
Inductive body (A : Type) :=
| Read (a : A)
| Unreadable (e : Page.thrown).
Arguments Read {A} a.
Arguments Unreadable {A} e.

(** The parts of a [Response] that the code reads. *)
Record Response := {
  ok : bool;
  status : number;
  text : body string;
  json : body Api.EventsResponse
}.

(** How [fetch(url)] ends. *)
Inductive answer :=
| NetworkError (e : Page.thrown)
| Responded (r : Response).

Section FetchEvents.
(** [String(x)] on a number, which is also how a template prints it;
    [q.toString()]; the environment variable; the network. *)
Variable String_ : number -> string.
Variable toString : URLSearchParams -> string.
Variable env : option string.
Variable fetch : string -> answer.

(** The query that [fetchEvents] builds. *)
Definition query (params : FetchEventsParams) : URLSearchParams :=
  let q := set "hazard" (nullish (hazard params) "earthquake") [] in
  let q :=
    match feed params with
    | Some f => if truthy (feed params) then set "feed" f q else q
    | None => q
    end in
  let q :=
    match min_magnitude params with
    | Some m => set "min_magnitude" (String_ m) q
    | None => q
    end in
  let q :=
    match limit params with
    | Some n => set "limit" (String_ n) q
    | None => q
    end in
  let q :=
    match since_hours params with
    | Some n => set "since_hours" (String_ n) q
    | None => q
    end in
  match min_severity_level params with
  | Some l => if truthy (min_severity_level params) then set "min_severity_level" l q else q
  | None => q
  end.

Definition url (params : FetchEventsParams) : string :=
  API_BASE env ++ "/events?" ++ toString (query params).

(** [await resp.text().catch(() => "")] *)
Definition text_or_empty (r : Response) : string :=
  match text r with
  | Read t => t
  | Unreadable _ => ""
  end.

(** The message of the error thrown for a response that is not ok. *)
Definition failure_message (r : Response) : string :=
  "API " ++ String_ (status r) ++ ": " ++ or_else (text_or_empty r) "Failed to fetch".

(** [fetchEvents(params)], as the promise it returns settles. *)
Definition fetchEvents (params : FetchEventsParams) : Page.settled Api.EventsResponse :=
  match fetch (url params) with
  | NetworkError e => Page.Rejected e
  | Responded r =>
      if negb (ok r) then Page.Rejected (Page.ThrownObject (Some (failure_message r)))
      else
        match json r with
        | Read v => Page.Fulfilled v
        | Unreadable e => Page.Rejected e
        end
  end.

(** The two requests of [load]. *)
Definition earthquake_request : FetchEventsParams :=
  {| hazard := Some "earthquake"; feed := Some "all_day"; limit := Some 80%float;
     min_magnitude := None; since_hours := Some 24%float;
     min_severity_level := None |}.

Definition flood_request : FetchEventsParams :=
  {| hazard := Some "flood"; feed := None; limit := Some 200%float;
     min_magnitude := None; since_hours := Some 24%float;
     min_severity_level := None |}.

(** One cycle of [load] against the network; [eq_first] as in
    [Page.Fetched]. *)
Definition cycle (eq_first : bool) : Page.Fetched :=
  {| Page.eq_result := fetchEvents earthquake_request;
     Page.fl_result := fetchEvents flood_request;
     Page.eq_first := eq_first |}.

End FetchEvents.

End Fetch.

(* ================================================================== *)
(** ** app/page.tsx: what [Home] renders from its state                 *)
(* ================================================================== *)

Module PageView.
Import JS.

(** [{error && <div>{error}</div>}]: the banner and its text. *)
Definition banner (s : Page.State) : option string :=
  if truthy (Page.error s) then Page.error s else None.

(** [{loading && <div>Loading…</div>}] *)
Definition loading_shown (s : Page.State) : bool := Page.loading s.

(** [Showing {filteredEvents.length} events] *)
Definition showing (s : Page.State) (hazard : Page.HazardFilter) : nat :=
  List.length (Page.filteredEvents (Page.events s) hazard).

(** The line under the place label: magnitude and depth for an earthquake,
    the subtype for everything else. *)
Inductive Detail :=
| QuakeDetail (magnitude depth_km : option number)
| AlertDetail (subtype : string).

Definition detail (e : Api.EventItem) : Detail :=
  if (Api.event_type e =? "earthquake")%string
  then QuakeDetail (Api.magnitude e) (Api.depth_km e)
  else AlertDetail (nullish (Api.hazard_subtype e) "Flood alert").

(** [e.time_utc ? new Date(e.time_utc).toUTCString() : "Unknown time"]: the
    engine's rendering of a time, named by the string it is computed from,
    or the fixed text. *)
Inductive TimeLabel :=
| UTCString (time_utc : string)
| UnknownTime.

(** [s.toUpperCase()], named by the string it is computed from. *)
Inductive UpperCased :=
| toUpperCase (s : string).

(** What evaluating an element gives: the element, or the TypeError of a
    method call on [undefined] or [null], which ends the render. *)
Inductive rendered (A : Type) :=
| Shown (a : A)
| Throws.
Arguments Shown {A} a.
Arguments Throws {A}.

(** One card of the list view: the React key, the link, the hazard pill,
    the place label, the time label, the detail line, the score (a dash in
    its place when it is missing), the badge's class and the badge's text. *)
Record Card := {
  key : string;
  href : string;
  pill : string;
  place_label : string;
  time_label : TimeLabel;
  detail_line : Detail;
  score_shown : option number;
  badge : string;
  badge_text : UpperCased
}.

(** The element built for one event.  Every field is read with a default
    or a test, except [e.severity_level.toUpperCase()], a method call on the
    field itself: it throws when the level is missing. *)
Definition card (e : Api.EventItem) : rendered Card :=
  match Api.severity_level e with
  | Some level =>
      Shown {| key := Api.source e ++ "-" ++ Api.source_event_id e;
               href := nullish (Api.url e) "#";
               pill := Page.hazardPill e;
               place_label := nullish (Api.place e) "Unknown location";
               time_label :=
                 match Api.time_utc e with
                 | Some t => if truthy (Api.time_utc e) then UTCString t else UnknownTime
                 | None => UnknownTime
                 end;
               detail_line := detail e;
               score_shown := Api.severity_score e;
               badge := Page.badgeClass (Api.severity_level e);
               badge_text := toUpperCase level |}
  | None => Throws
  end.

(** [filteredEvents.map((e) => <a ...>)]: the cards in the events' order;
    the first element that throws ends the whole render. *)
Fixpoint listView (filtered : list Api.EventItem) : rendered (list Card) :=
  match filtered with
  | [] => Shown []
  | e :: rest =>
      match card e with
      | Throws => Throws
      | Shown c =>
          match listView rest with
          | Throws => Throws
          | Shown cs => Shown (c :: cs)
          end
      end
  end.

End PageView.

(* ================================================================== *)
(** ** components/IntensityLegend.tsx                                   *)
(* ================================================================== *)

Module IntensityLegend.
Import JS.

Record LegendItem := {
  label : string;
  count : option number
}.

(** [arr.join(sep)] on strings. *)
Fixpoint join (sep : string) (l : list string) : string :=
  match l with
  | [] => ""
  | [x] => x
  | x :: l' => (x ++ sep ++ join sep l')%string
  end.

Section Summary.
Variable String_ : number -> string.

(** [typeof x.count === "number"] *)
Definition has_count (x : LegendItem) : bool :=
  match count x with Some _ => true | None => false end.

(** [`${x.label}: ${x.count}`] *)
Definition pair (x : LegendItem) : string :=
  (label x ++ ": "
   ++ match count x with Some n => String_ n | None => "undefined" end)%string.

(** The pairs of [summary]: one per item whose count is a number. *)
Definition pairs (items : list LegendItem) : list string :=
  map pair (filter has_count items).

Definition summary (items : list LegendItem) : string :=
  join " • " (pairs items).

(** [summary ? <div>Plotted: ...</div> : null], which sits in the branch
    rendered while the legend is not collapsed. *)
Definition plotted_line (collapsed : bool) (items : list LegendItem) : option string :=
  if collapsed then None
  else
    match summary items with
    | EmptyString => None
    | s => Some s
    end.

End Summary.

(** The state [collapsed], [useState(defaultCollapsed)], and the button,
    rendered when [collapsible], whose click is [setCollapsed((v) => !v)]. *)
Definition click (collapsible collapsed : bool) : bool :=
  if collapsible then negb collapsed else collapsed.

Definition after_clicks (collapsible defaultCollapsed : bool) (n : nat) : bool :=
  Nat.iter n (click collapsible) defaultCollapsed.

(** [EventsMap] passes neither [collapsible] nor [defaultCollapsed]: the
    defaults are [true] and [false]. *)
Definition map_legend_collapsed (n : nat) : bool := after_clicks true false n.

(** A length as a number. *)
Definition number_of_nat (n : nat) : number :=
  PrimFloat.of_uint63 (Uint63.of_Z (Z.of_nat n)).

(** The items [EventsMap] gives the legend in heat map mode. *)
Definition items_of (valid : list Api.EventItem) : list LegendItem :=
  [ {| label := "Earthquakes"; count := Some (number_of_nat (fst (EventsMap.counts valid))) |};
    {| label := "Floods"; count := Some (number_of_nat (snd (EventsMap.counts valid))) |} ].

End IntensityLegend.

(* ================================================================== *)
(** ** components/MagnitudeSlider.tsx: the highlighted range            *)
(* ================================================================== *)

Module SliderTrack.
Import JS.

(** [minPct] and [maxPct] *)
Definition pct (p : MagnitudeSlider.Props) (v : number) : number :=
  ((v - MagnitudeSlider.min p) / (MagnitudeSlider.max p - MagnitudeSlider.min p) * 100)%float.

Definition minPct (p : MagnitudeSlider.Props) (t : MagnitudeSlider.Thumbs) : number :=
  pct p (MagnitudeSlider.minVal t).
Definition maxPct (p : MagnitudeSlider.Props) (t : MagnitudeSlider.Thumbs) : number :=
  pct p (MagnitudeSlider.maxVal t).

(** [width: `${Math.max(0, maxPct - minPct)}%`] *)
Definition width (p : MagnitudeSlider.Props) (t : MagnitudeSlider.Thumbs) : number :=
  Math_max 0%float (maxPct p t - minPct p t)%float.

(** A run of change events. *)
Definition handle_all (p : MagnitudeSlider.Props) (t : MagnitudeSlider.Thumbs)
  (cs : list MagnitudeSlider.change) : MagnitudeSlider.Thumbs :=
  fold_left (MagnitudeSlider.handle p) cs t.

End SliderTrack.

(* ================================================================== *)
(** ** More sample data                                                 *)
(* ================================================================== *)

Module Samples.
Import JS.

(** The integer a number stands for, when it is a non-negative integer. *)
Definition integer_of (x : number) : option Z :=
  match Prim2SF x with
  | S754_zero _ => Some 0%Z
  | S754_finite false m e =>
      if (0 <=? e)%Z then Some (Zpos m * 2 ^ e)%Z
      else if (Zpos m mod 2 ^ (- e) =? 0)%Z then Some (Zpos m / 2 ^ (- e))%Z
      else None
  | _ => None
  end.

(** [String(x)] for the non-negative integers of the examples; other
    numbers do not occur there. *)
Definition String_ (x : number) : string :=
  match integer_of x with
  | Some z => NilEmpty.string_of_uint (N.to_uint (Z.to_N z))
  | None => "NaN"
  end.

(** A serialisation of a query without characters to escape. *)
Definition toString (q : Fetch.URLSearchParams) : string :=
  IntensityLegend.join "&" (map (fun kv => (fst kv ++ "=" ++ snd kv)%string) q).

(** A network on which the flood feed answers 503 and the earthquake feed
    answers with one event. *)
Definition unavailable : Fetch.Response :=
  {| Fetch.ok := false; Fetch.status := 503%float;
     Fetch.text := Fetch.Read "upstream down";
     Fetch.json := Fetch.Unreadable Page.ThrownNullish |}.

Definition one_quake : Fetch.Response :=
  {| Fetch.ok := true; Fetch.status := 200%float;
     Fetch.text := Fetch.Read "";
     Fetch.json := Fetch.Read (Examples.response [Examples.quake_5_noon]) |}.

Definition flood_feed_down (url : string) : Fetch.answer :=
  if (url =? "http://api.example/events?hazard=flood&limit=200&since_hours=24")%string
  then Fetch.Responded unavailable
  else Fetch.Responded one_quake.

End Samples.

(** Whether a string ends with a slash. *)
Fixpoint ends_with_slash (s : string) : bool :=
  match s with
  | EmptyString => false
  | String c s' =>
      match s' with
      | EmptyString => Ascii.eqb c "/"
      | _ => ends_with_slash s'
      end
  end.

(* ================================================================== *)
(** * Properties                                                        *)
(* ================================================================== *)

(** ** The definitions at work *)

Example run_merge :
  Page.merge Dates.Date_parse (Examples.response [Examples.quake_5_noon; Examples.quake_9_morning])
    (Examples.response [Examples.flood_unscored; Examples.flood_5_noon])
  = [Examples.quake_9_morning; Examples.quake_5_noon; Examples.flood_5_noon; Examples.flood_unscored].
Proof. vm_compute. reflexivity. Qed.

Example run_dates :
  Dates.Date_parse "1969-07-20T20:17:40Z" = (-14182940000)%float
  /\ Dates.Date_parse "2024-05-01T12:00:00Z" = 1714564800000%float
  /\ PrimFloat.is_nan (Dates.Date_parse "not a date") = true.
Proof. vm_compute. auto. Qed.

(** ** Severity colours (C8) *)

Lemma string_eqb_false (a b : string) : a <> b -> (a =? b)%string = false.
Proof. intro H. now apply String.eqb_neq. Qed.

(** C8.  [colorForLevel] and [badgeClass] are total: every input, the
    missing one and every string, lands in exactly one of four branches.
    "critical", "high" and "medium" have a colour of their own each, every
    other input gets the colour of "low", and the four colours differ. *)
Theorem severity_mappings_total :
  (forall level : option string,
      (level = Some "critical"
       /\ EventsMap.colorForLevel level = "#ef4444"
       /\ Page.badgeClass level = "bg-red-600 text-white")
      \/ (level = Some "high"
          /\ EventsMap.colorForLevel level = "#f97316"
          /\ Page.badgeClass level = "bg-orange-600 text-white")
      \/ (level = Some "medium"
          /\ EventsMap.colorForLevel level = "#eab308"
          /\ Page.badgeClass level = "bg-yellow-500 text-black")
      \/ (level <> Some "critical" /\ level <> Some "high"
          /\ level <> Some "medium"
          /\ EventsMap.colorForLevel level = EventsMap.colorForLevel (Some "low")
          /\ Page.badgeClass level = Page.badgeClass (Some "low")))
  /\ EventsMap.colorForLevel None = "#22c55e"
  /\ Page.badgeClass None = "bg-green-600 text-white"
  /\ NoDup (map EventsMap.colorForLevel
              [Some "critical"; Some "high"; Some "medium"; Some "low"])
  /\ NoDup (map Page.badgeClass
              [Some "critical"; Some "high"; Some "medium"; Some "low"]).
Proof.
  split; [| split; [reflexivity | split; [reflexivity | split]]].
  - intros [l |].
    + destruct (String.eqb_spec l "critical") as [-> | Hc];
        [left; repeat split |].
      destruct (String.eqb_spec l "high") as [-> | Hh];
        [right; left; repeat split |].
      destruct (String.eqb_spec l "medium") as [-> | Hm];
        [right; right; left; repeat split |].
      right; right; right.
      unfold EventsMap.colorForLevel, Page.badgeClass.
      rewrite !string_eqb_false by assumption.
      repeat split; congruence.
    + right; right; right. repeat split; discriminate.
  - cbn. repeat constructor; cbn; intuition discriminate.
  - cbn. repeat constructor; cbn; intuition discriminate.
Qed.


(* ================================================================== *)
(** ** Binary64 order and the sign of a difference                      *)
(* ================================================================== *)

(** The comparator of [load] returns a difference and the sort reads its
    sign.  This section derives, from the specification of the float
    primitives, that for numbers other than NaN the sign of the rounded
    difference [x - y] is the sign of the comparison of [x] with [y]: the
    difference of two distinct numbers never rounds to zero. *)

Import FloatOrder.

Lemma SFcompare_rank (f1 f2 : spec_float) :
  f1 <> S754_nan -> f2 <> S754_nan ->
  SFcompare f1 f2 = Some (lex3 (SFrank f1) (SFrank f2)).
Proof.
  intros H1 H2.
  destruct f1 as [s1 | s1 | | s1 m1 e1], f2 as [s2 | s2 | | s2 m2 e2];
    try congruence; try (destruct s1); try (destruct s2); try reflexivity.
  cbn. rewrite Z.compare_opp.
  destruct (Z.compare_spec e1 e2), (Z.compare_spec e2 e1); try lia; reflexivity.
Qed.

Lemma lex3_Lt (a b : Z * Z * Z) :
  lex3 a b = Lt <->
  (fst (fst a) < fst (fst b)
   \/ (fst (fst a) = fst (fst b)
       /\ (snd (fst a) < snd (fst b)
           \/ (snd (fst a) = snd (fst b) /\ snd a < snd b))))%Z.
Proof.
  destruct a as [[a1 a2] a3], b as [[b1 b2] b3]; cbn.
  destruct (Z.compare_spec a1 b1), (Z.compare_spec a2 b2), (Z.compare_spec a3 b3);
    split; intros; try discriminate; try reflexivity; lia.
Qed.

Lemma lex3_Eq (a b : Z * Z * Z) : lex3 a b = Eq <-> a = b.
Proof.
  destruct a as [[a1 a2] a3], b as [[b1 b2] b3]; cbn.
  destruct (Z.compare_spec a1 b1), (Z.compare_spec a2 b2), (Z.compare_spec a3 b3);
    split; intros E; try discriminate; try reflexivity;
    try (injection E as -> -> ->; lia); subst; reflexivity.
Qed.

Lemma lex3_antisym (a b : Z * Z * Z) : lex3 b a = CompOpp (lex3 a b).
Proof.
  destruct a as [[a1 a2] a3], b as [[b1 b2] b3]; cbn.
  rewrite (Z.compare_antisym a1 b1), (Z.compare_antisym a2 b2), (Z.compare_antisym a3 b3).
  destruct (a1 ?= b1)%Z, (a2 ?= b2)%Z, (a3 ?= b3)%Z; reflexivity.
Qed.

Lemma Prim2SF_not_nan (x : float) : is_nan x = false -> Prim2SF x <> S754_nan.
Proof.
  intros H. unfold Prim2SF. rewrite H.
  destruct (is_zero x); [discriminate |].
  destruct (is_infinity x); [discriminate |].
  destruct (Z.frexp x) as [r e].
  destruct (shr_fexp prec emax _ _ _) as [sh e'].
  destruct (shr_m sh); discriminate.
Qed.

Lemma Prim2SF_nan (x : float) : is_nan x = true -> Prim2SF x = S754_nan.
Proof. intros H. unfold Prim2SF. now rewrite H. Qed.

(** The number of binary digits of a mantissa brackets it between two powers of 2. *)
Lemma digits2_pos_bounds (m : positive) :
  (2 ^ (Zpos (digits2_pos m) - 1) <= Zpos m < 2 ^ Zpos (digits2_pos m))%Z.
Proof.
  induction m as [p IH | p IH |]; cbn [digits2_pos].
  - rewrite Pos2Z.inj_succ.
    replace (Z.succ (Zpos (digits2_pos p)) - 1)%Z with (Z.succ (Zpos (digits2_pos p) - 1))%Z by lia.
    rewrite !Z.pow_succ_r by lia. lia.
  - rewrite Pos2Z.inj_succ.
    replace (Z.succ (Zpos (digits2_pos p)) - 1)%Z with (Z.succ (Zpos (digits2_pos p) - 1))%Z by lia.
    rewrite !Z.pow_succ_r by lia. lia.
  - cbn. lia.
Qed.

Lemma shr_1_m (mrs : shr_record) :
  (0 <= shr_m mrs)%Z -> shr_m (shr_1 mrs) = (shr_m mrs / 2)%Z.
Proof.
  destruct mrs as [m r s]; cbn [shr_m]; intros H.
  destruct m as [| [p | p |] | p]; cbn; try reflexivity; try lia.
  - apply Z.div_unique with (r := 1%Z); lia.
  - apply Z.div_unique with (r := 0%Z); lia.
Qed.

Lemma pow2_xO (p : positive) : (2 ^ Zpos p~0 = 2 ^ Zpos p * 2 ^ Zpos p)%Z.
Proof. rewrite <- Z.pow_add_r by lia. f_equal. lia. Qed.

Lemma pow2_xI (p : positive) : (2 ^ Zpos p~1 = 2 * 2 ^ Zpos p * 2 ^ Zpos p)%Z.
Proof.
  rewrite <- Z.mul_assoc, <- Z.pow_add_r, <- Z.pow_succ_r by lia. f_equal. lia.
Qed.

Lemma iter_shr_1_m (p : positive) : forall mrs : shr_record,
  (0 <= shr_m mrs)%Z ->
  shr_m (iter_pos shr_1 p mrs) = (shr_m mrs / 2 ^ Zpos p)%Z.
Proof.
  assert (Hpow : forall q, (0 < 2 ^ Zpos q)%Z) by (intro q; apply Z.pow_pos_nonneg; lia).
  induction p as [p IH | p IH |]; intros mrs H; cbn [iter_pos].
  - assert (H1 : (0 <= shr_m (shr_1 mrs))%Z)
      by (rewrite shr_1_m by assumption; apply Z.div_pos; lia).
    assert (H2 : (0 <= shr_m (iter_pos shr_1 p (shr_1 mrs)))%Z)
      by (rewrite IH by assumption; apply Z.div_pos; [assumption | apply Hpow]).
    rewrite IH, IH, shr_1_m by assumption.
    pose proof (Hpow p).
    rewrite !Z.div_div by lia.
    rewrite pow2_xI. f_equal. lia.
  - assert (H2 : (0 <= shr_m (iter_pos shr_1 p mrs))%Z)
      by (rewrite IH by assumption; apply Z.div_pos; [assumption | apply Hpow]).
    rewrite IH, IH by assumption.
    pose proof (Hpow p).
    rewrite !Z.div_div by lia.
    now rewrite pow2_xO.
  - rewrite shr_1_m by assumption. reflexivity.
Qed.

Local Open Scope Z_scope.

Lemma shr_record_of_loc_m (m : Z) (l : location) : shr_m (shr_record_of_loc m l) = m.
Proof. destruct l as [| []]; reflexivity. Qed.

(* Shifting a positive mantissa whose exponent is at least emin keeps it positive. *)
Lemma shr_fexp_pos (m : positive) (e : Z) (l : location) :
  emin <= e ->
  0 < shr_m (fst (shr_fexp prec emax (Zpos m) e l))
  /\ emin <= snd (shr_fexp prec emax (Zpos m) e l).
Proof.
  intros He. unfold shr_fexp, shr. cbn [Zdigits2].
  destruct (fexp prec emax (Zpos (digits2_pos m) + e) - e) as [| p | p] eqn:En;
    cbn [fst snd]; rewrite ?shr_record_of_loc_m; try (split; [reflexivity | assumption]).
  rewrite iter_shr_1_m by (rewrite shr_record_of_loc_m; lia).
  rewrite shr_record_of_loc_m.
  split; [| lia].
  unfold fexp, SpecFloat.emin, prec, emax in *.
  pose proof (digits2_pos_bounds m) as [Hlo _].
  apply Z.div_str_pos. split; [apply Z.pow_pos_nonneg; lia |].
  eapply Z.le_trans; [| exact Hlo].
  apply Z.pow_le_mono_r; lia.
Qed.

Lemma round_nearest_even_pos (m : Z) (l : location) :
  0 < m -> 0 < round_nearest_even m l.
Proof.
  intros H. destruct l as [| []]; cbn; try assumption; try lia.
  destruct (Z.even m); lia.
Qed.

Lemma binary_round_aux_signed (s : bool) (m : positive) (e : Z) (l : location) :
  emin <= e -> signed_nonzero s (binary_round_aux prec emax s (Zpos m) e l).
Proof.
  intros He. unfold binary_round_aux.
  pose proof (shr_fexp_pos m e l He) as [Hm1 He1].
  destruct (shr_fexp prec emax (Zpos m) e l) as [mrs1 e1]; cbn [fst snd] in *.
  pose proof (round_nearest_even_pos _ (loc_of_shr_record mrs1) Hm1) as Hr.
  destruct (round_nearest_even (shr_m mrs1) (loc_of_shr_record mrs1)) as [| m2 | m2];
    try lia.
  pose proof (shr_fexp_pos m2 e1 loc_Exact He1) as [Hm3 He3].
  destruct (shr_fexp prec emax (Zpos m2) e1 loc_Exact) as [mrs3 e3]; cbn [fst snd] in *.
  destruct (shr_m mrs3) as [| m3 | m3]; try lia.
  destruct (e3 <=? emax - prec); [left; eauto | right; reflexivity].
Qed.

Lemma binary_round_signed (s : bool) (m : positive) (e : Z) :
  emin <= e -> signed_nonzero s (binary_round prec emax s m e).
Proof.
  intros He. unfold binary_round, shl_align.
  destruct (fexp prec emax (Zpos (digits2_pos m) + e) - e) eqn:En;
    apply binary_round_aux_signed; try assumption.
  unfold fexp, SpecFloat.emin, prec, emax in *. lia.
Qed.

Lemma iter_xO (d m : positive) : Zpos (Pos.iter xO m d) = Zpos m * 2 ^ Zpos d.
Proof.
  induction d as [| d IH] using Pos.peano_ind.
  - cbn. lia.
  - rewrite Pos.iter_succ, Pos2Z.inj_xO, IH, Pos2Z.inj_succ, Z.pow_succ_r by lia. lia.
Qed.

Lemma shl_align_fst (m : positive) (e e' : Z) :
  e' <= e -> Zpos (fst (shl_align m e e')) = Zpos m * 2 ^ (e - e').
Proof.
  intros H. unfold shl_align.
  destruct (e' - e) as [| d | d] eqn:Ed; cbn [fst].
  - replace (e - e') with 0 by lia. cbn. lia.
  - lia.
  - rewrite iter_xO. f_equal. f_equal. lia.
Qed.

(* Two canonical mantissas with different exponents: the one with the larger
   exponent is the larger number. *)
Lemma canonical_lt (mx my : positive) (ex ey : Z) :
  bounded prec emax mx ex = true -> bounded prec emax my ey = true ->
  ex < ey -> Zpos mx < Zpos my * 2 ^ (ey - ex).
Proof.
  unfold bounded, canonical_mantissa, fexp, SpecFloat.emin, prec, emax.
  intros Hx Hy Hlt.
  apply andb_prop in Hx as [Hx _]. apply andb_prop in Hy as [Hy _].
  apply Z.eqb_eq in Hx, Hy.
  pose proof (digits2_pos_bounds mx) as [_ Hhi].
  pose proof (digits2_pos_bounds my) as [Hlo _].
  assert (Zpos (digits2_pos my) = 53) as Edy by lia.
  assert (Zpos (digits2_pos mx) <= 53) as Edx by lia.
  rewrite Edy in Hlo. change (2 ^ (53 - 1)) with 4503599627370496 in Hlo.
  assert (2 ^ Zpos (digits2_pos mx) <= 2 ^ 53) as Hp by (apply Z.pow_le_mono_r; lia).
  change (2 ^ 53) with 9007199254740992 in Hp.
  assert (2 ^ 1 <= 2 ^ (ey - ex)) as Hq by (apply Z.pow_le_mono_r; lia).
  change (2 ^ 1) with 2 in Hq.
  nia.
Qed.

Lemma bounded_emin (m : positive) (e : Z) : bounded prec emax m e = true -> emin <= e.
Proof.
  unfold bounded, canonical_mantissa, fexp, SpecFloat.emin, prec, emax.
  intros H. apply andb_prop in H as [H _]. apply Z.eqb_eq in H. lia.
Qed.

Lemma aligned_compare (mx my : positive) (ex ey : Z) :
  bounded prec emax mx ex = true -> bounded prec emax my ey = true ->
  (Zpos (fst (shl_align mx ex (Z.min ex ey)))
   ?= Zpos (fst (shl_align my ey (Z.min ex ey))))
  = match ex ?= ey with
    | Eq => (mx ?= my)%positive
    | c => c
    end.
Proof.
  intros Hx Hy.
  rewrite !shl_align_fst by lia.
  destruct (Z.compare_spec ex ey) as [E | L | G].
  - subst. rewrite Z.min_id, Z.sub_diag. cbn [Z.pow]. rewrite !Z.mul_1_r. reflexivity.
  - rewrite Z.min_l, Z.sub_diag by lia. cbn [Z.pow]. rewrite Z.mul_1_r.
    apply Z.compare_lt_iff. now apply canonical_lt.
  - rewrite Z.min_r, Z.sub_diag by lia. cbn [Z.pow]. rewrite Z.mul_1_r.
    apply Z.compare_gt_iff. now apply canonical_lt.
Qed.

Lemma signed_nonzero_ltb (s : bool) (f : spec_float) :
  signed_nonzero s f ->
  SFltb f (S754_zero false) = s /\ SFltb (S754_zero false) f = negb s.
Proof. intros [(m & e & ->) | ->]; destruct s; split; reflexivity. Qed.

Lemma binary_normalize_sign (d e : Z) :
  emin <= e ->
  SFltb (binary_normalize prec emax d e false) (S754_zero false) = (d <? 0)
  /\ SFltb (S754_zero false) (binary_normalize prec emax d e false) = (0 <? d).
Proof.
  intros He. destruct d as [| p | p]; cbn [binary_normalize].
  - split; reflexivity.
  - apply (signed_nonzero_ltb false). now apply binary_round_signed.
  - apply (signed_nonzero_ltb true). now apply binary_round_signed.
Qed.

Lemma SFsub_sign (fx fy : spec_float) :
  valid_binary fx = true -> valid_binary fy = true ->
  fx <> S754_nan -> fy <> S754_nan ->
  SFltb (SF64sub fx fy) (S754_zero false) = SFltb fx fy
  /\ SFltb (S754_zero false) (SF64sub fx fy) = SFltb fy fx.
Proof.
  intros Vx Vy Nx Ny. unfold SF64sub.
  destruct fx as [sx | sx | | sx mx ex], fy as [sy | sy | | sy my ey];
    try congruence;
    try (destruct sx; destruct sy; split; reflexivity);
    try (destruct sx; split; reflexivity);
    try (destruct sy; split; reflexivity).
  cbn [valid_binary] in Vx, Vy. cbn [SFsub].
  pose proof (bounded_emin _ _ Vx). pose proof (bounded_emin _ _ Vy).
  assert (He : emin <= Z.min ex ey) by lia.
  destruct (binary_normalize_sign
              (cond_Zopp sx (Zpos (fst (shl_align mx ex (Z.min ex ey))))
               - cond_Zopp sy (Zpos (fst (shl_align my ey (Z.min ex ey)))))
              (Z.min ex ey) He) as [-> ->].
  pose proof (aligned_compare mx my ex ey Vx Vy) as Hc.
  set (A := Zpos (fst (shl_align mx ex (Z.min ex ey)))) in *.
  set (B := Zpos (fst (shl_align my ey (Z.min ex ey)))) in *.
  unfold SFltb, SFcompare.
  change (Pos.compare_cont Eq mx my) with (mx ?= my)%positive.
  change (Pos.compare_cont Eq my mx) with (my ?= mx)%positive.
  rewrite (Z.compare_antisym ex ey), (Pos.compare_antisym mx my).
  assert (HA : 0 < A) by (unfold A; lia).
  assert (HB : 0 < B) by (unfold B; lia).
  clearbody A B.
  pose proof (Z.compare_spec A B) as HAB. rewrite Hc in HAB. clear Hc.
  destruct (ex ?= ey); cbn [CompOpp];
    destruct (mx ?= my)%positive; cbn [CompOpp];
    inversion HAB;
    destruct sx, sy; cbn [cond_Zopp];
    split; first [apply Z.ltb_lt; lia | apply Z.ltb_ge; lia].
Qed.

Local Close Scope Z_scope.
Local Open Scope float_scope.

Lemma Prim2SF_zero : Prim2SF zero = S754_zero false.
Proof. reflexivity. Qed.

Lemma sub_sign (x y : float) :
  is_nan x = false -> is_nan y = false ->
  (x - y <? zero) = (x <? y) /\ (zero <? x - y) = (y <? x).
Proof.
  intros Hx Hy. rewrite !ltb_spec, sub_spec, Prim2SF_zero.
  apply SFsub_sign; auto using Prim2SF_valid, Prim2SF_not_nan.
Qed.

Lemma ltb_rank (x y : float) :
  is_nan x = false -> is_nan y = false ->
  (x <? y) = match lex3 (rank x) (rank y) with Lt => true | _ => false end.
Proof.
  intros Hx Hy. rewrite ltb_spec. unfold SFltb, rank.
  now rewrite SFcompare_rank by now apply Prim2SF_not_nan.
Qed.

Lemma eqb_rank (x y : float) :
  is_nan x = false -> is_nan y = false ->
  (x =? y) = match lex3 (rank x) (rank y) with Eq => true | _ => false end.
Proof.
  intros Hx Hy. rewrite eqb_spec. unfold SFeqb, rank.
  now rewrite SFcompare_rank by now apply Prim2SF_not_nan.
Qed.

Lemma leb_rank (x y : float) :
  is_nan x = false -> is_nan y = false ->
  (x <=? y) = match lex3 (rank x) (rank y) with Gt => false | _ => true end.
Proof.
  intros Hx Hy. rewrite leb_spec. unfold SFleb, rank.
  rewrite SFcompare_rank by now apply Prim2SF_not_nan.
  now destruct (lex3 _ _).
Qed.

Lemma eqb_not_nan (x y : float) :
  (x =? y) = true -> is_nan x = false /\ is_nan y = false.
Proof.
  rewrite eqb_spec. intros H.
  destruct (is_nan x) eqn:Hx.
  - rewrite (Prim2SF_nan x Hx) in H. discriminate.
  - destruct (is_nan y) eqn:Hy; [| auto].
    rewrite (Prim2SF_nan y Hy) in H. now destruct (Prim2SF x).
Qed.

(** *** Consequences for [<?], [=?] and [<=?] *)

Lemma lex3_Gt (a b : Z * Z * Z) : lex3 a b = Gt <-> lex3 b a = Lt.
Proof. rewrite (lex3_antisym a b). destruct (lex3 a b); cbn; intuition congruence. Qed.

Ltac lex_arith :=
  repeat match goal with
    | p : (Z * Z * Z)%type |- _ => destruct p as [[? ?] ?]
    end;
  repeat match goal with
    | H : lex3 _ _ = Gt |- _ => apply lex3_Gt in H
    | H : lex3 _ _ = Lt |- _ => apply lex3_Lt in H; cbn [fst snd] in H
    | H : lex3 _ _ = Eq |- _ => apply lex3_Eq in H; injection H as ? ? ?
    end.

Lemma lex3_refl (a : Z * Z * Z) : lex3 a a = Eq.
Proof. now apply lex3_Eq. Qed.

Lemma lex3_le_trans (a b c : Z * Z * Z) :
  lex3 a b <> Gt -> lex3 b c <> Gt -> lex3 a c <> Gt.
Proof.
  intros Hab Hbc Hac.
  destruct (lex3 a b) eqn:Eab; try congruence;
    destruct (lex3 b c) eqn:Ebc; try congruence;
    lex_arith; lia.
Qed.

Lemma leb_refl (x : float) : is_nan x = false -> (x <=? x) = true.
Proof. intros H. rewrite leb_rank by assumption. now rewrite lex3_refl. Qed.

Lemma leb_trans (x y z : float) :
  is_nan x = false -> is_nan y = false -> is_nan z = false ->
  (x <=? y) = true -> (y <=? z) = true -> (x <=? z) = true.
Proof.
  intros Hx Hy Hz. rewrite !leb_rank by assumption. intros Hxy Hyz.
  pose proof (lex3_le_trans (rank x) (rank y) (rank z)) as T.
  destruct (lex3 (rank x) (rank y)), (lex3 (rank y) (rank z)),
    (lex3 (rank x) (rank z)); try reflexivity; try discriminate;
    exfalso; apply T; congruence.
Qed.

Lemma ltb_leb (x y : float) :
  is_nan x = false -> is_nan y = false -> (x <? y) = true -> (x <=? y) = true.
Proof.
  intros Hx Hy. rewrite ltb_rank, leb_rank by assumption.
  now destruct (lex3 _ _).
Qed.

Lemma not_ltb_leb (x y : float) :
  is_nan x = false -> is_nan y = false -> (x <? y) = false -> (y <=? x) = true.
Proof.
  intros Hx Hy. rewrite ltb_rank, leb_rank by assumption.
  rewrite (lex3_antisym (rank x) (rank y)).
  now destruct (lex3 _ _).
Qed.

Lemma eqb_ltb_false (x y : float) : (x =? y) = true -> (x <? y) = false /\ (y <? x) = false.
Proof.
  intros H. destruct (eqb_not_nan _ _ H) as [Hx Hy].
  rewrite eqb_rank in H by assumption. rewrite !ltb_rank by assumption.
  rewrite (lex3_antisym (rank x) (rank y)).
  now destruct (lex3 _ _).
Qed.

(** *** [Math.min] and [Math.max] *)

Lemma Math_min_spec (a b : float) :
  is_nan a = false -> is_nan b = false ->
  (JS.Math_min a b = a \/ JS.Math_min a b = b)
  /\ (JS.Math_min a b <=? a) = true /\ (JS.Math_min a b <=? b) = true.
Proof.
  intros Ha Hb. unfold JS.Math_min. rewrite Ha, Hb. cbn [orb].
  destruct (a <? b) eqn:Hab; [| destruct (b <? a) eqn:Hba; [| destruct (get_sign a)]];
    auto using leb_refl, ltb_leb, not_ltb_leb.
Qed.

Lemma Math_max_spec (a b : float) :
  is_nan a = false -> is_nan b = false ->
  (JS.Math_max a b = a \/ JS.Math_max a b = b)
  /\ (a <=? JS.Math_max a b) = true /\ (b <=? JS.Math_max a b) = true.
Proof.
  intros Ha Hb. unfold JS.Math_max. rewrite Ha, Hb. cbn [orb].
  destruct (a <? b) eqn:Hab; [| destruct (b <? a) eqn:Hba; [| destruct (get_sign a)]];
    auto using leb_refl, ltb_leb, not_ltb_leb.
Qed.

Lemma Math_min_not_nan (a b : float) :
  is_nan a = false -> is_nan b = false -> is_nan (JS.Math_min a b) = false.
Proof. intros Ha Hb. destruct (Math_min_spec a b Ha Hb) as [[-> | ->] _]; assumption. Qed.

Lemma Math_max_not_nan (a b : float) :
  is_nan a = false -> is_nan b = false -> is_nan (JS.Math_max a b) = false.
Proof. intros Ha Hb. destruct (Math_max_spec a b Ha Hb) as [[-> | ->] _]; assumption. Qed.

Lemma Math_min_glb (a b c : float) :
  is_nan a = false -> is_nan b = false ->
  (c <=? a) = true -> (c <=? b) = true -> (c <=? JS.Math_min a b) = true.
Proof. intros Ha Hb Hca Hcb. destruct (Math_min_spec a b Ha Hb) as [[-> | ->] _]; assumption. Qed.

Lemma Math_max_lub (a b c : float) :
  is_nan a = false -> is_nan b = false ->
  (a <=? c) = true -> (b <=? c) = true -> (JS.Math_max a b <=? c) = true.
Proof. intros Ha Hb Hca Hcb. destruct (Math_max_spec a b Ha Hb) as [[-> | ->] _]; assumption. Qed.

(* ================================================================== *)
(** ** The magnitude slider (C10)                                       *)
(* ================================================================== *)

Lemma clamp_bounds (p : MagnitudeSlider.Props) (v : float) :
  is_nan (MagnitudeSlider.min p) = false ->
  is_nan (MagnitudeSlider.max p) = false ->
  is_nan v = false ->
  (MagnitudeSlider.min p <=? MagnitudeSlider.max p) = true ->
  is_nan (MagnitudeSlider.clamp p v) = false
  /\ (MagnitudeSlider.min p <=? MagnitudeSlider.clamp p v) = true
  /\ (MagnitudeSlider.clamp p v <=? MagnitudeSlider.max p) = true.
Proof.
  intros Hmin Hmax Hv Hle. unfold MagnitudeSlider.clamp.
  pose proof (Math_max_not_nan _ _ Hmin Hv) as Hn.
  destruct (Math_max_spec _ _ Hmin Hv) as (_ & Hlo & _).
  destruct (Math_min_spec _ _ Hmax Hn) as (_ & Hhi & _).
  repeat split.
  - now apply Math_min_not_nan.
  - now apply Math_min_glb.
  - exact Hhi.
Qed.

(** C10.  The handlers are written to keep the thumbs within [[min, max]]
    and "at least one step apart", and they do not.  A slider from 0 to 10
    with step 0.1 and thumbs at 4 and 6 satisfies the invariant; dragging
    the upper thumb down to 3 sets it to [4 + 0.1], and [(4 + 0.1) - 0.1]
    evaluates to 3.9999999999999996, below the lower thumb at 4: the gap is
    lost.  On a slider from 4 to 10 the next change of the lower thumb then
    puts it at 3.9999999999999996, below [min]. *)
Lemma slider_invariant_lost_to_rounding :
  let up := MagnitudeSlider.handle Examples.slider_0_10 Examples.thumbs_4_6
              (MagnitudeSlider.MaxThumb 3) in
  let up' := MagnitudeSlider.handle Examples.slider_4_10 Examples.thumbs_4_6
               (MagnitudeSlider.MaxThumb 3) in
  let down := MagnitudeSlider.handle Examples.slider_4_10 up'
                (MagnitudeSlider.MinThumb 5) in
  slider_invariant Examples.slider_0_10 Examples.thumbs_4_6 = true
  /\ slider_invariant Examples.slider_0_10 up = false
  /\ MagnitudeSlider.minVal up = 4%float
  /\ MagnitudeSlider.maxVal up = (4 + 0.1)%float
  /\ (MagnitudeSlider.maxVal up - 0.1)%float = 3.9999999999999996%float
  /\ PrimFloat.ltb (MagnitudeSlider.maxVal up - 0.1) (MagnitudeSlider.minVal up) = true
  /\ slider_invariant Examples.slider_4_10 Examples.thumbs_4_6 = true
  /\ within_bounds Examples.slider_4_10 down = false
  /\ MagnitudeSlider.minVal down = 3.9999999999999996%float
  /\ PrimFloat.ltb (MagnitudeSlider.minVal down) (MagnitudeSlider.min Examples.slider_4_10)
     = true.
Proof. vm_compute. repeat split. Qed.

(** What each handler enforces, with [min <= max] and no NaN involved: the
    input is clamped to [[min, max]] and capped against the other thumb
    offset by the step, in the arithmetic of the code. *)
Lemma handlers_cap (p : MagnitudeSlider.Props) (t : MagnitudeSlider.Thumbs)
  (input : float) :
  is_nan (MagnitudeSlider.min p) = false ->
  is_nan (MagnitudeSlider.max p) = false ->
  is_nan input = false ->
  (MagnitudeSlider.min p <=? MagnitudeSlider.max p) = true ->
  (is_nan (MagnitudeSlider.maxVal t - MagnitudeSlider.step p) = false ->
   let t' := MagnitudeSlider.handle p t (MagnitudeSlider.MinThumb input) in
   MagnitudeSlider.maxVal t' = MagnitudeSlider.maxVal t
   /\ (MagnitudeSlider.minVal t' <=? MagnitudeSlider.max p) = true
   /\ (MagnitudeSlider.minVal t'
       <=? MagnitudeSlider.maxVal t - MagnitudeSlider.step p) = true
   /\ ((MagnitudeSlider.min p
        <=? MagnitudeSlider.maxVal t - MagnitudeSlider.step p) = true ->
       (MagnitudeSlider.min p <=? MagnitudeSlider.minVal t') = true))
  /\ (is_nan (MagnitudeSlider.minVal t + MagnitudeSlider.step p) = false ->
      let t' := MagnitudeSlider.handle p t (MagnitudeSlider.MaxThumb input) in
      MagnitudeSlider.minVal t' = MagnitudeSlider.minVal t
      /\ (MagnitudeSlider.min p <=? MagnitudeSlider.maxVal t') = true
      /\ (MagnitudeSlider.minVal t + MagnitudeSlider.step p
          <=? MagnitudeSlider.maxVal t') = true
      /\ ((MagnitudeSlider.minVal t + MagnitudeSlider.step p
           <=? MagnitudeSlider.max p) = true ->
          (MagnitudeSlider.maxVal t' <=? MagnitudeSlider.max p) = true)).
Proof.
  intros Hmin Hmax Hv Hle.
  destruct (clamp_bounds p input Hmin Hmax Hv Hle) as (Hc & Hlo & Hhi).
  split; intros Hoff; cbn [MagnitudeSlider.handle MagnitudeSlider.onMinChange
    MagnitudeSlider.onMaxChange MagnitudeSlider.minVal MagnitudeSlider.maxVal
    MagnitudeSlider.minGap] in *.
  - destruct (Math_min_spec _ _ Hc Hoff) as (_ & Hl & Hr).
    repeat split.
    + eapply leb_trans; [| | | exact Hl | exact Hhi];
        auto using Math_min_not_nan.
    + exact Hr.
    + intros Hroom. now apply Math_min_glb.
  - destruct (Math_max_spec _ _ Hc Hoff) as (_ & Hl & Hr).
    repeat split.
    + eapply leb_trans; [| | | exact Hlo | exact Hl];
        auto using Math_max_not_nan.
    + exact Hr.
    + intros Hroom. now apply Math_max_lub.
Qed.

Lemma leb_not_nan (x y : float) :
  (x <=? y) = true -> is_nan x = false /\ is_nan y = false.
Proof.
  rewrite leb_spec. intros H.
  destruct (is_nan x) eqn:Hx.
  - rewrite (Prim2SF_nan x Hx) in H. discriminate.
  - destruct (is_nan y) eqn:Hy; [| auto].
    rewrite (Prim2SF_nan y Hy) in H. now destruct (Prim2SF x).
Qed.

(** X25.  What one change does keep.  From a pair of thumbs that satisfies
    the invariant, both within [[min, max]] and [minVal <= maxVal - step],
    and for an input that is not NaN: a change of the lower thumb preserves
    the invariant; a change of the upper thumb, when [minVal + step] is not
    NaN, leaves the lower thumb alone and sets the upper one to at least
    [min] and at least [minVal + step], and to at most [max] when
    [minVal + step <= max].  The sums and differences are the rounded ones
    the handlers compute. *)
Theorem slider_handlers_cap (p : MagnitudeSlider.Props) (t : MagnitudeSlider.Thumbs)
  (input : float) :
  slider_invariant p t = true ->
  is_nan input = false ->
  slider_invariant p (MagnitudeSlider.handle p t (MagnitudeSlider.MinThumb input)) = true
  /\ (is_nan (MagnitudeSlider.minVal t + MagnitudeSlider.step p) = false ->
      let t' := MagnitudeSlider.handle p t (MagnitudeSlider.MaxThumb input) in
      MagnitudeSlider.minVal t' = MagnitudeSlider.minVal t
      /\ (MagnitudeSlider.min p <=? MagnitudeSlider.maxVal t') = true
      /\ (MagnitudeSlider.minVal t + MagnitudeSlider.step p
          <=? MagnitudeSlider.maxVal t') = true
      /\ ((MagnitudeSlider.minVal t + MagnitudeSlider.step p
           <=? MagnitudeSlider.max p) = true ->
          within_bounds p t' = true)).
Proof.
  unfold slider_invariant, within_bounds, gap_kept. intros Hinv Hv.
  apply andb_prop in Hinv as [Hb Hgap].
  apply andb_prop in Hb as [Hb H4]. apply andb_prop in Hb as [Hb H3].
  apply andb_prop in Hb as [H1 H2].
  destruct (leb_not_nan _ _ H1) as [Nmin Nlo].
  destruct (leb_not_nan _ _ H4) as [Nhi Nmax].
  destruct (leb_not_nan _ _ Hgap) as [_ Noff].
  assert (Hle : (MagnitudeSlider.min p <=? MagnitudeSlider.max p) = true)
    by (eapply leb_trans; [| | | exact H1 | exact H2]; assumption).
  destruct (handlers_cap p t input Nmin Nmax Hv Hle) as [Hlower Hupper].
  split.
  - destruct (Hlower Noff) as (Esame & Hmax' & Hgap' & Hmin').
    cbv zeta in *. rewrite Esame, H3, H4, Hmax', Hgap'.
    rewrite Hmin'; [reflexivity |].
    eapply leb_trans; [| | | exact H1 | exact Hgap]; assumption.
  - intros Nsum. destruct (Hupper Nsum) as (Esame & Hmin' & Hgap' & Hmax').
    cbv zeta in *. repeat split; try assumption.
    intros Hroom. now rewrite Esame, H1, H2, Hmin', (Hmax' Hroom).
Qed.

Lemma slider_handlers_cap_witness :
  let p := Examples.slider_0_10 in
  let t := Examples.thumbs_4_6 in
  slider_invariant p (MagnitudeSlider.handle p t (MagnitudeSlider.MinThumb 7)) = true
  /\ (MagnitudeSlider.minVal t + MagnitudeSlider.step p
      <=? MagnitudeSlider.maxVal (MagnitudeSlider.handle p t (MagnitudeSlider.MaxThumb 7)))
     = true.
Proof.
  intros p t.
  destruct (slider_handlers_cap p t 7 eq_refl eq_refl) as [Hmin Hmax].
  split; [exact Hmin |].
  destruct (Hmax eq_refl) as (_ & _ & H & _). exact H.
Defined.

Local Close Scope float_scope.

(* ================================================================== *)
(** ** The stable sort under a consistent comparator                    *)
(* ================================================================== *)

Section StableSort.
Context {A : Type}.
Variable comparefn : A -> A -> float.

(** The elements on which the comparator is consistent. *)
Variable P : A -> Prop.

Let verdict := JS.SortCompare comparefn.

Hypothesis verdict_opp :
  forall a b, P a -> P b -> verdict b a = CompOpp (verdict a b).
Hypothesis verdict_trans :
  forall a b c, P a -> P b -> P c ->
    verdict a b <> Gt -> verdict b c <> Gt -> verdict a c <> Gt.

Lemma insert_perm (x : A) (l : list A) :
  Permutation (x :: l) (JS.insert comparefn x l).
Proof.
  induction l as [| y l IH]; cbn [JS.insert]; [reflexivity |].
  destruct (JS.SortCompare comparefn x y); try reflexivity.
  rewrite perm_swap. now constructor.
Qed.

Lemma Array_sort_perm (l : list A) : Permutation l (JS.Array_sort comparefn l).
Proof.
  induction l as [| x l IH]; cbn [JS.Array_sort]; [constructor |].
  rewrite <- insert_perm. now constructor.
Qed.

Lemma Array_sort_Forall (Q : A -> Prop) (l : list A) :
  Forall Q l -> Forall Q (JS.Array_sort comparefn l).
Proof.
  intros H. eapply Permutation_Forall; [apply Array_sort_perm | exact H].
Qed.

Lemma insert_sorted (x : A) (l : list A) :
  P x -> Forall P l ->
  StronglySorted (fun a b => verdict a b <> Gt) l ->
  StronglySorted (fun a b => verdict a b <> Gt) (JS.insert comparefn x l).
Proof.
  intros Px Pl Hs. induction Hs as [| y l Hs IH Hy]; cbn [JS.insert].
  - repeat constructor.
  - inversion Pl as [| ? ? Py Pl']; subst.
    fold verdict. destruct (verdict x y) eqn:Hxy.
    + constructor; [now constructor |].
      constructor; [congruence |].
      eapply Forall_impl; [| rewrite Forall_forall in *; intros z Hz;
        exact (conj (Pl' z Hz) (Hy z Hz))].
      intros z [Pz Hyz]. apply (verdict_trans x y z); auto. congruence.
    + constructor; [now constructor |].
      constructor; [congruence |].
      eapply Forall_impl; [| rewrite Forall_forall in *; intros z Hz;
        exact (conj (Pl' z Hz) (Hy z Hz))].
      intros z [Pz Hyz]. apply (verdict_trans x y z); auto. congruence.
    + constructor; [now apply IH |].
      eapply Permutation_Forall; [apply insert_perm |].
      constructor; [| exact Hy].
      rewrite (verdict_opp x y Px Py), Hxy. discriminate.
Qed.

Lemma Array_sort_sorted (l : list A) :
  Forall P l ->
  StronglySorted (fun a b => verdict a b <> Gt) (JS.Array_sort comparefn l).
Proof.
  induction 1 as [| x l Px Pl IH]; cbn [JS.Array_sort]; [constructor |].
  apply insert_sorted; auto using Array_sort_Forall.
Qed.

(** Stability: the elements of a class of mutually tied elements come out in
    the order in which they went in. *)
Lemma insert_filter (sel : A -> bool) (x : A) (l : list A) :
  (forall a b, sel a = true -> sel b = true -> verdict a b = Eq) ->
  filter sel (JS.insert comparefn x l) = filter sel (x :: l).
Proof.
  intros Htie. induction l as [| y l IH]; cbn [JS.insert]; [reflexivity |].
  fold verdict. destruct (verdict x y) eqn:Hxy; try reflexivity.
  cbn [filter] in IH |- *. rewrite IH.
  destruct (sel x) eqn:Sx, (sel y) eqn:Sy; try reflexivity.
  rewrite (Htie x y Sx Sy) in Hxy. discriminate.
Qed.

Lemma Array_sort_stable (sel : A -> bool) (l : list A) :
  (forall a b, sel a = true -> sel b = true -> verdict a b = Eq) ->
  filter sel (JS.Array_sort comparefn l) = filter sel l.
Proof.
  intros Htie. induction l as [| x l IH]; cbn [JS.Array_sort]; [reflexivity |].
  rewrite insert_filter by assumption. cbn [filter]. now rewrite IH.
Qed.

(** A ranked, stable rearrangement is unique: whichever way an engine
    sorts, under a consistent comparator it returns this list.  [cls x] is
    the class of the elements tied with [x]. *)
Variable cls : A -> A -> bool.
Hypothesis cls_tie :
  forall x z, P x -> P z -> (cls x z = true <-> verdict x z = Eq).

Lemma verdict_refl (x : A) : P x -> verdict x x = Eq.
Proof.
  intros Px. pose proof (verdict_opp x x Px Px) as H.
  destruct (verdict x x); [reflexivity | discriminate | discriminate].
Qed.

Lemma sorted_stable_unique (l1 : list A) : forall l2 : list A,
  Forall P l1 -> Permutation l1 l2 ->
  StronglySorted (fun a b => verdict a b <> Gt) l1 ->
  StronglySorted (fun a b => verdict a b <> Gt) l2 ->
  (forall x, P x -> filter (cls x) l1 = filter (cls x) l2) ->
  l1 = l2.
Proof.
  induction l1 as [| x l1 IH]; intros l2 Pl Hperm S1 S2 Hst.
  - now apply Permutation_nil in Hperm.
  - destruct l2 as [| y l2];
      [apply Permutation_sym, Permutation_nil in Hperm; discriminate |].
    inversion Pl as [| ? ? Px Pl1]; subst.
    inversion S1 as [| ? ? S1' F1]; subst.
    inversion S2 as [| ? ? S2' F2]; subst.
    assert (Py : P y).
    { rewrite Forall_forall in Pl. apply Pl.
      eapply Permutation_in; [apply Permutation_sym, Hperm | now left]. }
    assert (Hxy : verdict x y <> Gt).
    { assert (Hin : In y (x :: l1))
        by (eapply Permutation_in; [apply Permutation_sym, Hperm | now left]).
      destruct Hin as [<- | Hin]; [now rewrite verdict_refl |].
      rewrite Forall_forall in F1. now apply F1. }
    assert (Hyx : verdict y x <> Gt).
    { assert (Hin : In x (y :: l2))
        by (eapply Permutation_in; [apply Hperm | now left]).
      destruct Hin as [<- | Hin]; [now rewrite verdict_refl |].
      rewrite Forall_forall in F2. now apply F2. }
    assert (Tie : verdict x y = Eq).
    { rewrite (verdict_opp x y Px Py) in Hyx.
      destruct (verdict x y); [reflexivity | now cbn in Hyx | contradiction]. }
    assert (E : x = y).
    { pose proof (Hst x Px) as Hf. cbn [filter] in Hf.
      rewrite (proj2 (cls_tie x x Px Px) (verdict_refl x Px)) in Hf.
      rewrite (proj2 (cls_tie x y Px Py) Tie) in Hf.
      now injection Hf. }
    subst y. f_equal. apply IH; auto.
    + now apply Permutation_cons_inv in Hperm.
    + intros z Pz. pose proof (Hst z Pz) as Hf. cbn [filter] in Hf.
      destruct (cls z x); [now injection Hf | exact Hf].
Qed.

End StableSort.

(* ================================================================== *)
(** ** The merged collection (C1)                                       *)
(* ================================================================== *)

Lemma lex6_antisym (a b : (Z * Z * Z) * (Z * Z * Z)) :
  lex6 b a = CompOpp (lex6 a b).
Proof.
  unfold lex6. rewrite (lex3_antisym (fst a) (fst b)), (lex3_antisym (snd a) (snd b)).
  now destruct (lex3 (fst a) (fst b)).
Qed.

Lemma lex6_le_trans (a b c : (Z * Z * Z) * (Z * Z * Z)) :
  lex6 a b <> Gt -> lex6 b c <> Gt -> lex6 a c <> Gt.
Proof.
  destruct a as [a1 a2], b as [b1 b2], c as [c1 c2]. unfold lex6. cbn [fst snd].
  intros Hab Hbc Hac.
  destruct (lex3 a1 b1) eqn:E1; try congruence;
    destruct (lex3 b1 c1) eqn:E2; try congruence;
    destruct (lex3 a1 c1) eqn:E3; try congruence;
    try (destruct (lex3 a2 b2) eqn:E4; try congruence;
         destruct (lex3 b2 c2) eqn:E5; try congruence);
    lex_arith; subst; lia.
Qed.

(** The sign of a difference, as the sort reads it, is the comparison of the
    two numbers. *)
Lemma sign_of_difference (x y : float) :
  is_nan x = false -> is_nan y = false ->
  (if (x - y <? zero)%float then Lt else if (zero <? x - y)%float then Gt else Eq)
  = lex3 (rank x) (rank y).
Proof.
  intros Hx Hy. destruct (sub_sign x y Hx Hy) as [-> ->].
  rewrite !ltb_rank by assumption.
  rewrite (lex3_antisym (rank x) (rank y)).
  now destruct (lex3 (rank x) (rank y)).
Qed.

Section Comparator.
Variable Date_parse : string -> float.

Let verdict := JS.SortCompare (Page.compareEvents Date_parse).
Let defined (e : Api.EventItem) : Prop := Ranking.keys_defined Date_parse e = true.

(** The comparator computes the two keys: it answers with the difference
    of the scores when they differ, and with that of the times otherwise. *)
Lemma comparator_keys (a b : Api.EventItem) :
  Page.compareEvents Date_parse a b
  = if JS.strict_ne (Ranking.score_key b) (Ranking.score_key a)
    then (Ranking.score_key b - Ranking.score_key a)%float
    else (Ranking.time_key Date_parse b - Ranking.time_key Date_parse a)%float.
Proof.
  assert (Ht : forall e, Page.time_value Date_parse (Api.time_utc e)
                         = Ranking.time_key Date_parse e).
  { intros e. unfold Page.time_value, Ranking.time_key.
    destruct (Api.time_utc e) as [[| c s] |]; reflexivity. }
  unfold Page.compareEvents. cbv zeta. rewrite !Ht. reflexivity.
Qed.

Lemma keys_defined_nan (e : Api.EventItem) :
  defined e ->
  is_nan (Ranking.score_key e) = false
  /\ is_nan (Ranking.time_key Date_parse e) = false.
Proof.
  unfold defined, Ranking.keys_defined. intros H.
  apply andb_prop in H as [H1 H2].
  split; now apply negb_true_iff.
Qed.

(** On events whose keys are numbers, the comparator is the lexicographic
    comparison of the ranks, descending. *)
Lemma verdict_rank (a b : Api.EventItem) :
  defined a -> defined b ->
  verdict a b = lex6 (Ranking.event_rank Date_parse b) (Ranking.event_rank Date_parse a).
Proof.
  intros Ha Hb.
  destruct (keys_defined_nan a Ha) as [Hsa Hta].
  destruct (keys_defined_nan b Hb) as [Hsb Htb].
  unfold verdict, JS.SortCompare. rewrite comparator_keys.
  unfold lex6, Ranking.event_rank. cbn [fst snd].
  cbv zeta. unfold JS.strict_ne.
  rewrite (eqb_rank _ _ Hsb Hsa).
  pose proof (sign_of_difference _ _ Hsb Hsa) as Hs.
  pose proof (sign_of_difference _ _ Htb Hta) as Ht.
  destruct (lex3 (rank (Ranking.score_key b)) (rank (Ranking.score_key a)));
    cbn [negb]; assumption.
Qed.

Lemma verdict_opp (a b : Api.EventItem) :
  defined a -> defined b -> verdict b a = CompOpp (verdict a b).
Proof. intros Ha Hb. rewrite !verdict_rank by assumption. apply lex6_antisym. Qed.

Lemma verdict_trans (a b c : Api.EventItem) :
  defined a -> defined b -> defined c ->
  verdict a b <> Gt -> verdict b c <> Gt -> verdict a c <> Gt.
Proof.
  intros Ha Hb Hc. rewrite !verdict_rank by assumption.
  intros Hab Hbc. exact (lex6_le_trans _ _ _ Hbc Hab).
Qed.

(** In terms of the keys: the comparator puts [a] after [b] exactly when
    [b] ranks strictly before [a]. *)
Lemma verdict_precedes (a b : Api.EventItem) :
  defined a -> defined b ->
  (verdict a b <> Gt <-> Ranking.precedes Date_parse b a = false).
Proof.
  intros Ha Hb. rewrite verdict_rank by assumption.
  destruct (keys_defined_nan a Ha) as [Hsa Hta].
  destruct (keys_defined_nan b Hb) as [Hsb Htb].
  unfold Ranking.precedes, lex6, Ranking.event_rank. cbn [fst snd].
  rewrite (ltb_rank _ _ Hsa Hsb), (eqb_rank _ _ Hsb Hsa), (ltb_rank _ _ Hta Htb).
  rewrite (lex3_antisym (rank (Ranking.score_key b)) (rank (Ranking.score_key a))).
  rewrite (lex3_antisym (rank (Ranking.time_key Date_parse b))
             (rank (Ranking.time_key Date_parse a))).
  destruct (lex3 (rank (Ranking.score_key b)) (rank (Ranking.score_key a)));
    destruct (lex3 (rank (Ranking.time_key Date_parse b))
                (rank (Ranking.time_key Date_parse a)));
    cbn; intuition congruence.
Qed.

(** Events that share both keys are tied under the comparator, whatever the
    keys are. *)
Lemma verdict_tied (s t : float) (a b : Api.EventItem) :
  Ranking.has_keys Date_parse s t a = true ->
  Ranking.has_keys Date_parse s t b = true ->
  verdict a b = Eq.
Proof.
  unfold Ranking.has_keys. intros Ha Hb.
  apply andb_prop in Ha as [Hsa Hta]. apply andb_prop in Hb as [Hsb Htb].
  destruct (eqb_not_nan _ _ Hsa) as [Nsa Ns], (eqb_not_nan _ _ Hta) as [Nta Nt].
  destruct (eqb_not_nan _ _ Hsb) as [Nsb _], (eqb_not_nan _ _ Htb) as [Ntb _].
  assert (Da : defined a)
    by (unfold defined, Ranking.keys_defined; now rewrite Nsa, Nta).
  assert (Db : defined b)
    by (unfold defined, Ranking.keys_defined; now rewrite Nsb, Ntb).
  rewrite verdict_rank by assumption.
  rewrite eqb_rank in Hsa, Hta, Hsb, Htb by assumption.
  unfold lex6, Ranking.event_rank. cbn [fst snd].
  destruct (lex3 (rank (Ranking.score_key a)) (rank s)) eqn:E1; try discriminate.
  destruct (lex3 (rank (Ranking.score_key b)) (rank s)) eqn:E2; try discriminate.
  destruct (lex3 (rank (Ranking.time_key Date_parse a)) (rank t)) eqn:E3; try discriminate.
  destruct (lex3 (rank (Ranking.time_key Date_parse b)) (rank t)) eqn:E4; try discriminate.
  apply lex3_Eq in E1, E2, E3, E4. rewrite E1, E2, E3, E4.
  now rewrite !lex3_refl.
Qed.

Lemma has_keys_self (x : Api.EventItem) :
  defined x ->
  Ranking.has_keys Date_parse (Ranking.score_key x) (Ranking.time_key Date_parse x) x
  = true.
Proof.
  intros Hx. destruct (keys_defined_nan x Hx) as [Hs Ht].
  unfold Ranking.has_keys. rewrite !eqb_rank by assumption.
  now rewrite !lex3_refl.
Qed.

(** The events tied with [x] are those that share its two keys. *)
Lemma verdict_class (x z : Api.EventItem) :
  defined x -> defined z ->
  (Ranking.has_keys Date_parse (Ranking.score_key x) (Ranking.time_key Date_parse x) z
   = true
   <-> verdict x z = Eq).
Proof.
  intros Hx Hz. split.
  - intros H. eapply verdict_tied; [now apply has_keys_self | exact H].
  - rewrite verdict_rank by assumption.
    destruct (keys_defined_nan x Hx) as [Hsx Htx].
    destruct (keys_defined_nan z Hz) as [Hsz Htz].
    unfold lex6, Ranking.event_rank, Ranking.has_keys. cbn [fst snd].
    rewrite !eqb_rank by assumption.
    destruct (lex3 (rank (Ranking.score_key z)) (rank (Ranking.score_key x)));
      try discriminate.
    now intros ->.
Qed.

End Comparator.

Lemma StronglySorted_on {A : Type} (P : A -> Prop) (R R' : A -> A -> Prop) (l : list A) :
  (forall a b, P a -> P b -> R a b -> R' a b) ->
  Forall P l -> StronglySorted R l -> StronglySorted R' l.
Proof.
  intros Himp Pl Hs. induction Hs as [| x l Hs IH Hx]; [constructor |].
  inversion Pl as [| ? ? Px Pl']; subst.
  constructor; [now apply IH |].
  rewrite Forall_forall in *. intros y Hy. apply Himp; auto.
Qed.

Lemma load_publishes_merge (Date_parse : string -> float) (f : Page.Fetched)
  (eq fl : Api.EventsResponse) (s : Page.State) :
  Page.eq_result f = Page.Fulfilled eq ->
  Page.fl_result f = Page.Fulfilled fl ->
  Page.load_resume Date_parse false f s
  = Page.setLoading false (Page.setEvents (Page.merge Date_parse eq fl) s).
Proof.
  intros He Hf. unfold Page.load_resume, Page.Promise_all. now rewrite He, Hf.
Qed.

(** C1, as stated, fails on an undated event and on an unparseable time.
    With [timeUtc] missing the comparator uses time value 0, the epoch, so an
    undated earthquake stays ahead of a flood of the same score dated 1969,
    although the order of the claim puts the flood first.  With a [timeUtc]
    that is no date the comparator returns NaN, which the sort reads as a
    tie, so the earthquake stays ahead of a flood of the same score with a
    proper time. *)
Lemma undated_event_not_ranked_last :
  let out :=
    Page.events
      (Page.load_resume Dates.Date_parse false
         (Examples.both [Examples.quake_undated] [Examples.flood_1969])
         Page.initial) in
  let out' :=
    Page.events
      (Page.load_resume Dates.Date_parse false
         (Examples.both [Examples.quake_garbled] [Examples.flood_noon])
         Page.initial) in
  (out = [Examples.quake_undated; Examples.flood_1969]
   /\ Api.time_utc Examples.quake_undated = None
   /\ Ranking.spec_precedes Dates.Date_parse
        Examples.flood_1969 Examples.quake_undated = true
   /\ ~ Ranking.ranked (Ranking.spec_precedes Dates.Date_parse) out)
  /\ (out' = [Examples.quake_garbled; Examples.flood_noon]
      /\ PrimFloat.is_nan (Dates.Date_parse "not a date") = true
      /\ Ranking.spec_precedes Dates.Date_parse
           Examples.flood_noon Examples.quake_garbled = true
      /\ ~ Ranking.ranked (Ranking.spec_precedes Dates.Date_parse) out').
Proof.
  cbv zeta.
  assert (E1 : Page.events
                 (Page.load_resume Dates.Date_parse false
                    (Examples.both [Examples.quake_undated] [Examples.flood_1969])
                    Page.initial)
               = [Examples.quake_undated; Examples.flood_1969])
    by (vm_compute; reflexivity).
  assert (E2 : Page.events
                 (Page.load_resume Dates.Date_parse false
                    (Examples.both [Examples.quake_garbled] [Examples.flood_noon])
                    Page.initial)
               = [Examples.quake_garbled; Examples.flood_noon])
    by (vm_compute; reflexivity).
  rewrite E1, E2.
  assert (P1 : Ranking.spec_precedes Dates.Date_parse
                 Examples.flood_1969 Examples.quake_undated = true)
    by (vm_compute; reflexivity).
  assert (P2 : Ranking.spec_precedes Dates.Date_parse
                 Examples.flood_noon Examples.quake_garbled = true)
    by (vm_compute; reflexivity).
  assert (N : PrimFloat.is_nan (Dates.Date_parse "not a date") = true)
    by (vm_compute; reflexivity).
  split; (split; [reflexivity | split; [assumption || reflexivity | split; [assumption |]]]).
  - intros H. inversion H as [| ? ? _ HF]; subst.
    inversion HF as [| ? ? Hhd _]; subst. congruence.
  - intros H. inversion H as [| ? ? _ HF]; subst.
    inversion HF as [| ? ? Hhd _]; subst. congruence.
Qed.

(** C1, amended.  When both requests succeed, [load] publishes a
    rearrangement of the earthquake list followed by the flood list.  The
    score key of an event is its [severity_score], 0 when that is missing;
    its time key is [Date.parse(time_utc)], and 0, the epoch, when
    [time_utc] is missing or empty.  When no key of the concatenation is NaN
    (no score is NaN and every time that is there parses), the published
    list is ranked by score descending, then time descending: no event ranks
    strictly before an earlier one; it is stable: events with the same score
    key and the same time key keep the order of the concatenation; and it is
    the only ranked, stable rearrangement of the concatenation, so it does
    not depend on how the engine sorts.  With a NaN key the order is the
    engine's choice and nothing is said of it. *)
Theorem merged_collection_ranked (Date_parse : string -> float) (f : Page.Fetched)
  (eq fl : Api.EventsResponse) (s : Page.State) :
  Page.eq_result f = Page.Fulfilled eq ->
  Page.fl_result f = Page.Fulfilled fl ->
  let input := JS.nullish (Api.events eq) [] ++ JS.nullish (Api.events fl) [] in
  let out := Page.events (Page.load_resume Date_parse false f s) in
  Permutation input out
  /\ (forall e, Ranking.score_key e = JS.nullish (Api.severity_score e) 0%float)
  /\ (forall e, JS.truthy (Api.time_utc e) = false ->
                Ranking.time_key Date_parse e = 0%float)
  /\ (forall e t, Api.time_utc e = Some t -> t <> "" ->
                  Ranking.time_key Date_parse e = Date_parse t)
  /\ (forall a b,
         Page.compareEvents Date_parse a b
         = if JS.strict_ne (Ranking.score_key b) (Ranking.score_key a)
           then (Ranking.score_key b - Ranking.score_key a)%float
           else (Ranking.time_key Date_parse b - Ranking.time_key Date_parse a)%float)
  /\ (forallb (Ranking.keys_defined Date_parse) input = true ->
      Ranking.ranked (Ranking.precedes Date_parse) out
      /\ (forall sc t,
             filter (Ranking.has_keys Date_parse sc t) out
             = filter (Ranking.has_keys Date_parse sc t) input)
      /\ forall out',
           Permutation input out' ->
           Ranking.ranked (Ranking.precedes Date_parse) out' ->
           (forall sc t,
               filter (Ranking.has_keys Date_parse sc t) out'
               = filter (Ranking.has_keys Date_parse sc t) input) ->
           out' = out).
Proof.
  intros He Hf input out.
  assert (Eout : out = JS.Array_sort (Page.compareEvents Date_parse) input)
    by (unfold out; now rewrite (load_publishes_merge _ _ _ _ _ He Hf)).
  rewrite Eout. split; [| split; [| split; [| split; [| split]]]].
  - apply Array_sort_perm.
  - intros e. reflexivity.
  - intros e H. unfold Ranking.time_key.
    destruct (Api.time_utc e) as [[| c t] |]; [reflexivity | discriminate | reflexivity].
  - intros e t H Ht. unfold Ranking.time_key. rewrite H.
    destruct t; [congruence | reflexivity].
  - apply comparator_keys.
  - intros Hdef. rewrite forallb_forall in Hdef. apply Forall_forall in Hdef.
    assert (Hsorted :
             StronglySorted
               (fun a b => JS.SortCompare (Page.compareEvents Date_parse) a b <> Gt)
               (JS.Array_sort (Page.compareEvents Date_parse) input))
      by (apply (Array_sort_sorted _ (fun e => Ranking.keys_defined Date_parse e = true));
          [apply verdict_opp | apply verdict_trans | exact Hdef]).
    assert (Hstable :
             forall sc t,
               filter (Ranking.has_keys Date_parse sc t)
                 (JS.Array_sort (Page.compareEvents Date_parse) input)
               = filter (Ranking.has_keys Date_parse sc t) input)
      by (intros sc t; apply Array_sort_stable; intros a b; apply verdict_tied).
    split; [| split; [exact Hstable |]].
    { unfold Ranking.ranked.
      apply (StronglySorted_on
               (fun e => Ranking.keys_defined Date_parse e = true)
               (fun a b => JS.SortCompare (Page.compareEvents Date_parse) a b <> Gt));
        [intros a b Ha Hb; now apply verdict_precedes
        | now apply Array_sort_Forall
        | exact Hsorted]. }
    intros out' Hperm Hranked Hstable'.
    assert (Pout' : Forall (fun e => Ranking.keys_defined Date_parse e = true) out')
      by (eapply Permutation_Forall; eassumption).
    apply (sorted_stable_unique (Page.compareEvents Date_parse)
             (fun e => Ranking.keys_defined Date_parse e = true)
             (verdict_opp Date_parse)
             (fun x => Ranking.has_keys Date_parse (Ranking.score_key x)
                         (Ranking.time_key Date_parse x))
             (verdict_class Date_parse)).
    + exact Pout'.
    + eapply Permutation_trans; [apply Permutation_sym, Hperm | apply Array_sort_perm].
    + apply (StronglySorted_on
               (fun e => Ranking.keys_defined Date_parse e = true)
               (fun a b => Ranking.precedes Date_parse b a = false));
        [intros a b Ha Hb; now apply verdict_precedes | exact Pout' | exact Hranked].
    + exact Hsorted.
    + intros x _. rewrite Hstable'. symmetry. apply Hstable.
Qed.

Lemma merged_collection_ranked_witness :
  let f := Examples.both [Examples.quake_5_noon; Examples.quake_9_morning]
             [Examples.flood_unscored; Examples.flood_5_noon] in
  let out := Page.events (Page.load_resume Dates.Date_parse false f Examples.showing) in
  out = [Examples.quake_9_morning; Examples.quake_5_noon;
         Examples.flood_5_noon; Examples.flood_unscored]
  /\ Ranking.ranked (Ranking.precedes Dates.Date_parse) out
  /\ filter (Ranking.has_keys Dates.Date_parse 5%float 1714564800000%float) out
     = [Examples.quake_5_noon; Examples.flood_5_noon].
Proof.
  cbv zeta. split; [vm_compute; reflexivity |].
  destruct (proj2 (proj2 (proj2 (proj2 (proj2
    (merged_collection_ranked Dates.Date_parse
       (Examples.both [Examples.quake_5_noon; Examples.quake_9_morning]
          [Examples.flood_unscored; Examples.flood_5_noon])
       _ _ Examples.showing eq_refl eq_refl))))))
    as (Hranked & Hstable & _).
  - vm_compute. reflexivity.
  - split; [exact Hranked |].
    rewrite Hstable. vm_compute. reflexivity.
Defined.

(* ================================================================== *)
(** ** Failed and cancelled cycles (C2, C3)                             *)
(* ================================================================== *)

Lemma load_begin_events (s : Page.State) :
  Page.events (Page.load_begin s) = Page.events s.
Proof. reflexivity. Qed.

Lemma Promise_all_rejects (f : Page.Fetched) :
  (exists e, Page.eq_result f = Page.Rejected e)
  \/ (exists e, Page.fl_result f = Page.Rejected e) ->
  exists e, Page.Promise_all f = Page.Rejected e
            /\ (Page.eq_result f = Page.Rejected e
                \/ Page.fl_result f = Page.Rejected e).
Proof.
  unfold Page.Promise_all.
  intros [[e He] | [e He]]; rewrite He.
  - destruct (Page.fl_result f) as [fl | e2]; [eauto |].
    destruct (Page.eq_first f); eauto.
  - destruct (Page.eq_result f) as [eq | e1]; [eauto |].
    destruct (Page.eq_first f); eauto.
Qed.

(** C2, as stated, fails where the rejection carries the empty string as
    its message: [e?.message ?? "Failed to load events"] keeps it, the error
    is set to the empty string, and [{error && ...}] renders nothing for it.
    The flood request fails, the events stay, and the user sees no message. *)
Lemma empty_message_not_shown :
  let f :=
    {| Page.eq_result := Page.Fulfilled (Examples.response [Examples.quake_5_noon]);
       Page.fl_result := Page.Rejected (Page.ThrownObject (Some ""));
       Page.eq_first := true |} in
  let s' := Page.load_resume Dates.Date_parse false f (Page.load_begin Examples.showing) in
  Page.Promise_all f = Page.Rejected (Page.ThrownObject (Some ""))
  /\ Page.error s' = Some ""
  /\ PageView.banner s' = None
  /\ Page.events s' = Page.events Examples.showing.
Proof. cbv zeta. vm_compute. repeat split. Qed.

(** C2, amended.  When either request of a cycle rejects, [Promise.all]
    rejects with one of the two rejections and the cycle fails as a whole:
    the published events are those from before the cycle, whether the state
    is read after the rejection alone or after the whole cycle.  In a cycle
    that was not cancelled the loading flag is cleared and the error is set
    to one message, that of the rejection, or the default text when the
    rejection has none; the banner shows that one message, unless it is the
    empty string, for which no banner is rendered.  On the poller: a tick
    followed by its failed requests leaves the events as they were. *)
Theorem failed_cycle_keeps_collection (Date_parse : string -> float)
  (f : Page.Fetched) (s : Page.State) (p : Page.Poller) :
  (exists e, Page.eq_result f = Page.Rejected e)
  \/ (exists e, Page.fl_result f = Page.Rejected e) ->
  exists e,
    Page.Promise_all f = Page.Rejected e
    /\ (Page.eq_result f = Page.Rejected e \/ Page.fl_result f = Page.Rejected e)
    /\ (forall cancelled,
           Page.events (Page.load_resume Date_parse cancelled f s) = Page.events s)
    /\ (let s' := Page.load_resume Date_parse false f (Page.load_begin s) in
        s' = {| Page.events := Page.events s;
                Page.loading := false;
                Page.error :=
                  Some (JS.nullish (Page.opt_message e) "Failed to load events") |}
        /\ PageView.banner s'
           = match Page.opt_message e with
             | None => Some "Failed to load events"
             | Some EmptyString => None
             | Some m => Some m
             end
        /\ (Page.opt_message e <> Some "" ->
            PageView.banner s'
            = Some (JS.nullish (Page.opt_message e) "Failed to load events")))
    /\ (Page.timer p = true -> Page.cancelled p = false ->
        Page.view (Page.run Date_parse p [Page.Tick; Page.Settle f])
        = {| Page.events := Page.events (Page.view p);
             Page.loading := false;
             Page.error :=
               Some (JS.nullish (Page.opt_message e) "Failed to load events") |}).
Proof.
  intros H. destruct (Promise_all_rejects f H) as (e & Hall & Hwho).
  exists e. split; [exact Hall |]. split; [exact Hwho |].
  split; [| split].
  - intros c. unfold Page.load_resume. rewrite Hall. now destruct c.
  - assert (Es : Page.load_resume Date_parse false f (Page.load_begin s)
                 = {| Page.events := Page.events s;
                      Page.loading := false;
                      Page.error :=
                        Some (JS.nullish (Page.opt_message e) "Failed to load events") |})
      by (unfold Page.load_resume; rewrite Hall; reflexivity).
    cbv zeta. rewrite Es. unfold PageView.banner. cbn [Page.error].
    split; [reflexivity | split].
    + destruct (Page.opt_message e) as [[| c m] |]; reflexivity.
    + intros Hm. destruct (Page.opt_message e) as [[| c m] |];
        [congruence | reflexivity | reflexivity].
  - intros Ht Hc. unfold Page.run. cbn [fold_left Page.step].
    rewrite Ht. cbn [Page.inflight Page.view Page.cancelled].
    rewrite Hc. unfold Page.load_resume. rewrite Hall. reflexivity.
Qed.

Lemma failed_cycle_keeps_collection_witness :
  let s' := Page.load_resume Dates.Date_parse false Examples.flood_down
              (Page.load_begin Examples.showing) in
  s' = {| Page.events := [Examples.quake_9_morning];
          Page.loading := false;
          Page.error := Some "API 503: upstream down" |}
  /\ PageView.banner s' = Some "API 503: upstream down".
Proof.
  cbv zeta.
  destruct (failed_cycle_keeps_collection Dates.Date_parse Examples.flood_down
              Examples.showing Page.mount)
    as (e & Hall & _ & _ & (Hcycle & _ & Hbanner) & _).
  - right. eexists. reflexivity.
  - cbv in Hall. injection Hall as <-.
    split; [rewrite Hcycle; reflexivity |].
    rewrite Hbanner; [reflexivity | discriminate].
Defined.

Lemma stopped_poller_is_inert (Date_parse : string -> float)
  (p : Page.Poller) (a : Page.action) :
  Page.cancelled p = true -> Page.timer p = false ->
  Page.cancelled (Page.step Date_parse p a) = true
  /\ Page.timer (Page.step Date_parse p a) = false
  /\ Page.view (Page.step Date_parse p a) = Page.view p.
Proof.
  intros Hc Ht. destruct a as [| f |]; cbn [Page.step].
  - rewrite Ht. auto.
  - destruct (Page.inflight p); cbn; [auto |].
    rewrite Hc. repeat split; auto.
    unfold Page.load_resume. cbn [negb].
    now destruct (Page.Promise_all f) as [[eq fl] | e].
  - cbn. auto.
Qed.

(** C3.  Once the clean-up of the effect has run, nothing that happens
    afterwards writes the state: whatever requests settle, with whatever
    outcome and in whatever number, and whatever else is attempted, the
    events, the error and the loading flag stay what they were when the
    poller was stopped.  In particular the continuation of [load] run with
    the flag set is the identity on the state. *)
Theorem no_write_after_stop (Date_parse : string -> float) :
  (forall (p : Page.Poller) (tr : list (Page.action)),
      Page.view
        (Page.run Date_parse (Page.step Date_parse p (Page.Stop)) tr)
      = Page.view p)
  /\ (forall (f : Page.Fetched) (s : Page.State),
         Page.load_resume Date_parse true f s = s).
Proof.
  split.
  - intros p tr.
    assert (G : forall q : Page.Poller,
               Page.cancelled q = true ->
               Page.timer q = false ->
               Page.view (Page.run Date_parse q tr)
               = Page.view q).
    { induction tr as [| a tr IH]; intros q Hc Ht; [reflexivity |].
      destruct (stopped_poller_is_inert Date_parse q a Hc Ht) as (Hc' & Ht' & Hv).
      unfold Page.run in *. cbn [fold_left]. now rewrite IH. }
    now rewrite G.
  - intros f s. unfold Page.load_resume. cbn [negb].
    now destruct (Page.Promise_all f) as [[eq fl] | e].
Qed.

(* ================================================================== *)
(** ** The hazard filter (C5)                                           *)
(* ================================================================== *)

Lemma filter_subseq {A : Type} (f : A -> bool) (l : list A) : subseq (filter f l) l.
Proof.
  induction l as [| x l IH]; cbn [filter]; [constructor |].
  destruct (f x); now constructor.
Qed.

Lemma subseq_refl {A : Type} (l : list A) : subseq l l.
Proof. induction l; now constructor. Qed.

Lemma filter_idempotent {A : Type} (f : A -> bool) (l : list A) :
  filter f (filter f l) = filter f l.
Proof.
  induction l as [| x l IH]; [reflexivity |]. cbn [filter].
  destruct (f x) eqn:E; [| exact IH]. cbn [filter]. now rewrite E, IH.
Qed.

Lemma read_alloc_old (h : Store.store) (a : list Api.EventItem) (q : Store.ref) :
  q < List.length h -> Store.read (fst (Store.alloc h a)) q = Store.read h q.
Proof. intros H. unfold Store.read, Store.alloc. cbn [fst]. now rewrite app_nth1. Qed.

Lemma read_alloc_new (h : Store.store) (a : list Api.EventItem) :
  Store.read (fst (Store.alloc h a)) (snd (Store.alloc h a)) = a.
Proof.
  unfold Store.read, Store.alloc. cbn [fst snd].
  rewrite app_nth2 by lia. now rewrite Nat.sub_diag.
Qed.

Lemma store_filteredEvents_spec (h : Store.store) (r : Store.ref)
  (hazard : Page.HazardFilter) :
  r < List.length h ->
  Store.read (fst (Store.filteredEvents h r hazard)) (snd (Store.filteredEvents h r hazard))
  = Page.filteredEvents (Store.read h r) hazard
  /\ (forall q, q < List.length h ->
                Store.read (fst (Store.filteredEvents h r hazard)) q = Store.read h q)
  /\ List.length h <= List.length (fst (Store.filteredEvents h r hazard)).
Proof.
  intros Hr. destruct hazard; cbn [Store.filteredEvents Page.filteredEvents fst snd];
    unfold Store.Array_filter; auto;
    (split; [apply read_alloc_new | split; [intros q Hq; now apply read_alloc_old |]]);
    cbn [Store.alloc fst]; rewrite length_app; lia.
Qed.

Lemma filteredEvents_map (g : Api.EventItem -> Api.EventItem)
  (events : list Api.EventItem) (hazard : Page.HazardFilter) :
  (forall e, Api.event_type (g e) = Api.event_type e) ->
  Page.filteredEvents (map g events) hazard = map g (Page.filteredEvents events hazard).
Proof.
  intros Hg. destruct hazard; cbn [Page.filteredEvents]; try reflexivity;
    induction events as [| x l IH]; cbn [map filter]; try reflexivity;
    rewrite Hg; destruct (Api.event_type x =? _)%string; cbn [map]; now rewrite IH.
Qed.

(** X24.  The filter reads the type of an event and nothing else.  An event
    is in the output exactly when it is in the collection and its type is
    the selected hazard, or the selector is "all"; the magnitude is not
    read, so replacing the magnitudes of the collection in any way replaces
    them in the output and changes nothing else. *)
Theorem filter_ignores_magnitude (events : list Api.EventItem)
  (hazard : Page.HazardFilter) :
  (forall e,
      In e (Page.filteredEvents events hazard)
      <-> In e events
          /\ (hazard = Page.All \/ Api.event_type e = Page.hazard_string hazard))
  /\ (forall g : Api.EventItem -> option JS.number,
         Page.filteredEvents (map (fun e => with_magnitude (g e) e) events) hazard
         = map (fun e => with_magnitude (g e) e) (Page.filteredEvents events hazard)).
Proof.
  split.
  - intros e. destruct hazard; cbn [Page.filteredEvents Page.hazard_string];
      rewrite ?filter_In, ?String.eqb_eq; intuition discriminate.
  - intros g. now apply (filteredEvents_map (fun e => with_magnitude (g e) e)).
Qed.

(** C5.  The filter's output is the input with some events left out, in the
    input's order; with the selector "all" it is the input itself; applying
    the filter to its own output changes nothing.  On arrays: the call
    writes no array that existed before it (for "all" it returns the input
    array, otherwise a new one), and a second call with the same arguments
    returns an array with the same elements. *)
Theorem filter_is_pure_subsequence (events : list Api.EventItem)
  (hazard : Page.HazardFilter) :
  subseq (Page.filteredEvents events hazard) events
  /\ Page.filteredEvents events Page.All = events
  /\ Page.filteredEvents (Page.filteredEvents events hazard) hazard
     = Page.filteredEvents events hazard
  /\ (forall (h : Store.store) (r : Store.ref),
         r < List.length h -> Store.read h r = events ->
         let '(h1, r1) := Store.filteredEvents h r hazard in
         let '(h2, r2) := Store.filteredEvents h1 r hazard in
         Store.read h1 r1 = Page.filteredEvents events hazard
         /\ (forall q, q < List.length h -> Store.read h1 q = Store.read h q)
         /\ Store.read h2 r = events
         /\ Store.read h2 r2 = Store.read h1 r1
         /\ Store.filteredEvents h r Page.All = (h, r)).
Proof.
  split; [| split; [reflexivity | split]].
  - destruct hazard; cbn [Page.filteredEvents];
      auto using filter_subseq, subseq_refl.
  - destruct hazard; cbn [Page.filteredEvents]; auto using filter_idempotent.
  - intros h r Hr Hread.
    pose proof (store_filteredEvents_spec h r hazard Hr) as (H1 & H1' & Hlen).
    destruct (Store.filteredEvents h r hazard) as [h1 r1] eqn:E1. cbn [fst snd] in *.
    assert (Hr1 : r < List.length h1) by lia.
    pose proof (store_filteredEvents_spec h1 r hazard Hr1) as (H2 & H2' & _).
    destruct (Store.filteredEvents h1 r hazard) as [h2 r2] eqn:E2. cbn [fst snd] in *.
    rewrite H2' by assumption. rewrite H2, H1, (H1' r Hr), Hread.
    repeat split; auto.
Qed.

Lemma filter_is_pure_subsequence_witness :
  let events := [Examples.quake_5_noon; Examples.flood_unscored; Examples.quake_9_morning] in
  let h := [[Examples.flood_5_noon]; events] in
  let '(h1, r1) := Store.filteredEvents h 1 Page.Earthquake in
  Store.read h1 r1 = [Examples.quake_5_noon; Examples.quake_9_morning]
  /\ Store.read h1 1 = events.
Proof.
  cbv zeta.
  pose proof (proj2 (proj2 (proj2
    (filter_is_pure_subsequence
       [Examples.quake_5_noon; Examples.flood_unscored; Examples.quake_9_morning]
       Page.Earthquake)))
    [[Examples.flood_5_noon];
     [Examples.quake_5_noon; Examples.flood_unscored; Examples.quake_9_morning]]
    1 (le_n 2) eq_refl) as H.
  destruct (Store.filteredEvents _ 1 Page.Earthquake) as [h1 r1].
  destruct (Store.filteredEvents h1 1 Page.Earthquake) as [h2 r2].
  destruct H as (H1 & H2 & _). split.
  - rewrite H1. reflexivity.
  - rewrite H2 by (cbn; lia). reflexivity.
Defined.

(* ================================================================== *)
(** ** Map membership and heat weights (C6, C7, C9)                     *)
(* ================================================================== *)

Lemma hasCoordinates_numbers (e : Api.EventItem) :
  EventsMap.hasCoordinates e = true <->
  exists la lo, Api.lat e = JS.Num la /\ Api.lon e = JS.Num lo
                /\ PrimFloat.is_nan la = false /\ PrimFloat.is_nan lo = false.
Proof.
  unfold EventsMap.hasCoordinates. split.
  - intros H. apply andb_prop in H as [H Hlo]. apply andb_prop in H as [H Hla].
    apply andb_prop in H as [Tla Tlo].
    destruct (Api.lat e) as [| | la | |]; try discriminate.
    destruct (Api.lon e) as [| | lo | |]; try discriminate.
    exists la, lo. cbn in Hla, Hlo. rewrite negb_true_iff in Hla, Hlo. auto.
  - intros (la & lo & -> & -> & Hla & Hlo). cbn. now rewrite Hla, Hlo.
Qed.

Lemma hasCoordinates_unusable (e : Api.EventItem) :
  unusable (Api.lat e) \/ unusable (Api.lon e) -> EventsMap.hasCoordinates e = false.
Proof.
  intros H. destruct (EventsMap.hasCoordinates e) eqn:E; [| reflexivity].
  apply hasCoordinates_numbers in E as (la & lo & Ela & Elo & Hla & Hlo).
  rewrite Ela, Elo in H. cbn in H. destruct H; congruence.
Qed.

Lemma heatPoint_kept (e : Api.EventItem) :
  HeatLayer.hasCoordinates (EventsMap.heatPoint e) = EventsMap.hasCoordinates e.
Proof. reflexivity. Qed.

Lemma estimate_unfold (events : option (list Api.EventItem)) :
  estimate events
  = map (fun e => (Api.lat e, Api.lon e, JS.nullish (Api.severity_score e) 1%float))
      (EventsMap.validEvents events).
Proof.
  unfold estimate, EventsMap.heatPoints, EventsMap.validEvents.
  induction (JS.nullish events []) as [| x l IH]; [reflexivity |].
  cbn [filter]. destruct (EventsMap.hasCoordinates x) eqn:E; [| exact IH].
  cbn [map filter]. rewrite heatPoint_kept, E. cbn [map]. now rewrite IH.
Qed.

(** C6, as stated, fails in its last part: the filter of [validEvents]
    rejects NaN, not infinity.  An earthquake at latitude [Infinity] passes
    it and reaches the heat layer with a latitude that is not finite. *)
Lemma infinite_latitude_is_plotted :
  estimate (Some [Examples.quake_off_the_map])
  = [(JS.Num PrimFloat.infinity, JS.Num 20%float, 3%float)]
  /\ Api.lat Examples.quake_off_the_map = JS.Num PrimFloat.infinity
  /\ JS.Number_isNaN (JS.Num PrimFloat.infinity) = false
  /\ JS.Number_isFinite (JS.Num PrimFloat.infinity) = false.
Proof. vm_compute. repeat split. Qed.

(** C6, amended.  The heat layer receives one point per event whose [lat]
    and [lon] are both numbers other than NaN, in the events' order, and
    none for any other event; the point is [(lat, lon, weight)] with weight
    [severity_score] when that is not missing and 1 when it is.  So in every
    point [lat] and [lon] are numbers and not NaN (they may be infinite).
    No layer is built when no event qualifies.  The array of events is only
    read: [validEvents] returns a new array. *)
Theorem heat_points_from_located_events (events : option (list Api.EventItem)) :
  estimate events
  = map (fun e => (Api.lat e, Api.lon e, JS.nullish (Api.severity_score e) 1%float))
      (filter EventsMap.hasCoordinates (JS.nullish events []))
  /\ HeatLayer.heatLayerInput (EventsMap.heatPoints (EventsMap.validEvents events))
     = match EventsMap.validEvents events with
       | [] => None
       | _ => Some (estimate events)
       end
  /\ (forall e, In e (EventsMap.validEvents events) <->
                In e (JS.nullish events [])
                /\ exists la lo, Api.lat e = JS.Num la /\ Api.lon e = JS.Num lo
                                 /\ PrimFloat.is_nan la = false
                                 /\ PrimFloat.is_nan lo = false)
  /\ (forall p, In p (estimate events) ->
                exists la lo, fst (fst p) = JS.Num la /\ snd (fst p) = JS.Num lo
                              /\ PrimFloat.is_nan la = false
                              /\ PrimFloat.is_nan lo = false)
  /\ (forall (h : Store.store) (r : Store.ref),
         r < List.length h -> events = Some (Store.read h r) ->
         let '(h1, r1) := Store.validEvents h (Some r) in
         Store.read h1 r1 = EventsMap.validEvents events
         /\ forall q, q < List.length h -> Store.read h1 q = Store.read h q).
Proof.
  split; [apply estimate_unfold |]. split; [| split; [| split]].
  - unfold estimate. destruct (EventsMap.validEvents events); reflexivity.
  - intros e. unfold EventsMap.validEvents.
    now rewrite filter_In, hasCoordinates_numbers.
  - intros p. rewrite estimate_unfold, in_map_iff.
    intros (e & <- & He). unfold EventsMap.validEvents in He.
    apply filter_In in He as [_ He]. cbn [fst snd].
    now apply hasCoordinates_numbers.
  - intros h r Hr ->. cbn [Store.validEvents]. unfold Store.Array_filter.
    pose proof (read_alloc_new h (filter EventsMap.hasCoordinates (Store.read h r))) as Hn.
    pose proof (fun q => read_alloc_old h
                  (filter EventsMap.hasCoordinates (Store.read h r)) q) as Ho.
    destruct (Store.alloc h _) as [h1 r1]. cbn [fst snd] in *.
    split; [exact Hn | exact Ho].
Qed.

Lemma heat_points_from_located_events_witness :
  estimate (Some [Examples.quake_5_noon; Examples.flood_unscored])
  = [(JS.Num 10%float, JS.Num 20%float, 5%float)]
  /\ (let '(h1, r1) :=
        Store.validEvents [[Examples.quake_5_noon; Examples.flood_unscored]] (Some 0) in
      Store.read h1 r1 = [Examples.quake_5_noon]
      /\ Store.read h1 0 = [Examples.quake_5_noon; Examples.flood_unscored]).
Proof.
  pose proof (heat_points_from_located_events
                (Some [Examples.quake_5_noon; Examples.flood_unscored]))
    as (H1 & _ & _ & _ & H5).
  split; [rewrite H1; reflexivity |].
  specialize (H5 [[Examples.quake_5_noon; Examples.flood_unscored]] 0 (le_n 1) eq_refl).
  destruct H5 as [Ha Hb]. split.
  - exact (eq_trans Ha eq_refl).
  - exact (eq_trans (Hb 0 (le_n 1)) eq_refl).
Defined.

(** The list view of events that all have their level: one card each, in
    the events' order. *)
Lemma listView_shown (l : list Api.EventItem) :
  (forall x, In x l -> Api.severity_level x <> None) ->
  exists cards,
    PageView.listView l = PageView.Shown cards
    /\ Forall2 (fun x c => PageView.card x = PageView.Shown c) l cards.
Proof.
  induction l as [| x l IH]; intros H.
  - exists []. split; [reflexivity | constructor].
  - destruct IH as (cs & Els & Hcs); [intros y Hy; apply H; now right |].
    assert (Hx : Api.severity_level x <> None) by (apply H; now left).
    destruct (PageView.card x) as [c |] eqn:Ec.
    + exists (c :: cs). cbn [PageView.listView]. rewrite Ec, Els.
      split; [reflexivity | now constructor].
    + unfold PageView.card in Ec. destruct (Api.severity_level x); [discriminate | congruence].
Qed.

(** One event without a level and the list view is not rendered at all. *)
Lemma listView_throws (l : list Api.EventItem) (x : Api.EventItem) :
  In x l -> Api.severity_level x = None -> PageView.listView l = PageView.Throws.
Proof.
  intros Hin Hx. induction l as [| y l IH]; [destruct Hin |].
  cbn [PageView.listView]. destruct Hin as [-> | Hin].
  - unfold PageView.card. now rewrite Hx.
  - rewrite (IH Hin). now destruct (PageView.card y).
Qed.

Lemma Forall2_In_l {A B : Type} (R : A -> B -> Prop) (l : list A) (l' : list B) (x : A) :
  Forall2 R l l' -> In x l -> exists y, In y l' /\ R x y.
Proof.
  induction 1 as [| a b l l' Hab _ IH]; intros Hin; [destruct Hin |].
  destruct Hin as [-> | Hin].
  - exists b. split; [now left | exact Hab].
  - destruct (IH Hin) as (y & Hy & HR). exists y. split; [now right | exact HR].
Qed.

(** The list view does not read the coordinates. *)
Lemma listView_coordinates (g : Api.EventItem -> JS.value * JS.value)
  (l : list Api.EventItem) :
  PageView.listView (map (fun x => with_coordinates (fst (g x)) (snd (g x)) x) l)
  = PageView.listView l.
Proof.
  induction l as [| x l IH]; [reflexivity |].
  cbn [map PageView.listView]. rewrite IH. reflexivity.
Qed.

(** C7.  An event of the filtered collection whose [lat] or [lon] is
    missing, not a number, or NaN is not among the events the map draws, and
    no glyph is drawn for it in either view mode.  In a collection whose
    events all have their [severity_level], as [EventItem] declares, the list
    view has one card per filtered event, in order, and the card of this
    event is among them with the event's own key, link, pill, place, time,
    detail line, score and level.  The list view does not read the
    coordinates: replacing them throughout the collection, in any way,
    leaves it as it is.  (An event without a level makes the list view throw,
    with or without coordinates.) *)
Theorem unlocated_event_listed_not_mapped (events : list Api.EventItem)
  (hazard : Page.HazardFilter) (e : Api.EventItem) (view : EventsMap.ViewMode) :
  In e (Page.filteredEvents events hazard) ->
  unusable (Api.lat e) \/ unusable (Api.lon e) ->
  (forall x, In x (Page.filteredEvents events hazard) -> Api.severity_level x <> None) ->
  let filtered := Page.filteredEvents events hazard in
  ~ In e (EventsMap.validEvents (Some filtered))
  /\ ~ In (EventsMap.glyph e) (EventsMap.glyphs view (Some filtered))
  /\ (exists cards c,
        PageView.listView filtered = PageView.Shown cards
        /\ Forall2 (fun x c' => PageView.card x = PageView.Shown c') filtered cards
        /\ PageView.card e = PageView.Shown c
        /\ In c cards
        /\ PageView.key c = (Api.source e ++ "-" ++ Api.source_event_id e)%string
        /\ PageView.href c = JS.nullish (Api.url e) "#"
        /\ PageView.pill c = Page.hazardPill e
        /\ PageView.place_label c = JS.nullish (Api.place e) "Unknown location"
        /\ PageView.time_label c
           = (if JS.truthy (Api.time_utc e)
              then PageView.UTCString (JS.nullish (Api.time_utc e) "")
              else PageView.UnknownTime)
        /\ PageView.detail_line c = PageView.detail e
        /\ PageView.score_shown c = Api.severity_score e
        /\ PageView.badge c = Page.badgeClass (Api.severity_level e)
        /\ Api.severity_level e
           = Some (match PageView.badge_text c with PageView.toUpperCase level => level end))
  /\ (forall la lo, PageView.card (with_coordinates la lo e) = PageView.card e)
  /\ (forall g : Api.EventItem -> JS.value * JS.value,
         PageView.listView
           (Page.filteredEvents
              (map (fun x => with_coordinates (fst (g x)) (snd (g x)) x) events) hazard)
         = PageView.listView filtered)
  /\ (forall l x, In x l -> Api.severity_level x = None ->
                  PageView.listView l = PageView.Throws).
Proof.
  intros Hin Hbad Hlevels filtered.
  pose proof (hasCoordinates_unusable e Hbad) as Hno.
  split; [| split; [| split; [| split; [reflexivity | split]]]].
  - unfold EventsMap.validEvents. rewrite filter_In. intros [_ H]. congruence.
  - destruct view; cbn [EventsMap.glyphs]; [| intros []].
    rewrite in_map_iff. intros (e' & Hg & He').
    unfold EventsMap.validEvents in He'. apply filter_In in He' as [_ He'].
    apply hasCoordinates_numbers in He' as (la & lo & Ela & Elo & Hla & Hlo).
    assert (Hpos : EventsMap.position (EventsMap.glyph e')
                   = EventsMap.position (EventsMap.glyph e)) by now rewrite Hg.
    cbn in Hpos. rewrite Ela, Elo in Hpos. injection Hpos as Hla' Hlo'.
    rewrite <- Hla', <- Hlo' in Hbad. cbn in Hbad. destruct Hbad; congruence.
  - destruct (listView_shown filtered Hlevels) as (cards & Els & Hcards).
    destruct (Forall2_In_l _ _ _ e Hcards Hin) as (c & Hc & Ec).
    exists cards, c.
    split; [exact Els |]. split; [exact Hcards |]. split; [exact Ec |].
    split; [exact Hc |].
    unfold PageView.card in Ec.
    destruct (Api.severity_level e) as [level |] eqn:El; [| discriminate].
    injection Ec as <-.
    cbn [PageView.key PageView.href PageView.pill PageView.place_label
         PageView.time_label PageView.detail_line PageView.score_shown
         PageView.badge PageView.badge_text].
    repeat (split; [reflexivity |]).
    split; [destruct (Api.time_utc e) as [[| ch t] |]; reflexivity |].
    repeat (split; [reflexivity |]). reflexivity.
  - intros g. rewrite (filteredEvents_map
                         (fun x => with_coordinates (fst (g x)) (snd (g x)) x));
      [apply listView_coordinates | reflexivity].
  - apply listView_throws.
Qed.

Lemma unlocated_event_listed_not_mapped_witness :
  let filtered :=
    Page.filteredEvents [Examples.quake_5_noon; Examples.flood_unscored] Page.All in
  ~ In Examples.flood_unscored (EventsMap.validEvents (Some filtered))
  /\ exists cards c,
       PageView.listView filtered = PageView.Shown cards
       /\ In c cards
       /\ PageView.key c = "nws-f2"
       /\ PageView.place_label c = "River Somewhere"
       /\ PageView.badge_text c = PageView.toUpperCase "high".
Proof.
  cbv zeta.
  destruct (unlocated_event_listed_not_mapped
              [Examples.quake_5_noon; Examples.flood_unscored] Page.All
              Examples.flood_unscored EventsMap.events_mode)
    as (H1 & _ & (cards & c & Hl & _ & _ & Hc & Hk & _ & _ & Hp & _ & _ & _ & _ & Hb) & _).
  - cbn. right. left. reflexivity.
  - left. exact I.
  - intros x [<- | [<- | []]]; discriminate.
  - split; [exact H1 |]. exists cards, c.
    split; [exact Hl |]. split; [exact Hc |]. split; [exact Hk |]. split; [exact Hp |].
    destruct (PageView.badge_text c) as [level]. cbn in Hb. now injection Hb as <-.
Defined.

Lemma eqb_sym_true (x y : float) :
  PrimFloat.eqb x y = true -> PrimFloat.eqb y x = true.
Proof.
  intros H. destruct (eqb_not_nan _ _ H) as [Nx Ny].
  rewrite eqb_rank in H by assumption. rewrite eqb_rank by assumption.
  rewrite (lex3_antisym (rank x) (rank y)).
  now destruct (lex3 (rank x) (rank y)).
Qed.

Lemma zero_below_one (z : float) :
  PrimFloat.eqb z 0 = true -> PrimFloat.ltb z 1 = true.
Proof.
  intros H. destruct (eqb_not_nan _ _ H) as [Nz N0].
  rewrite eqb_rank in H by assumption.
  rewrite ltb_rank by (assumption || reflexivity).
  destruct (lex3 (rank z) (rank 0)) eqn:E; try discriminate.
  apply lex3_Eq in E. rewrite E. vm_compute. reflexivity.
Qed.

(** C9.  In any collection given to the map, take two events with
    coordinates, one whose [severity_score] is there and is 0 (of either
    sign), one without a score.  Both reach the heat layer, each as its own
    point: the first with its score as weight, which is less than 1, the
    second with weight 1.  The score keys of the two are equal, and the
    comparator of the sort answers for them with the difference of their
    times alone. *)
Theorem zero_score_weighs_less_than_none (Date_parse : string -> float)
  (events : option (list Api.EventItem)) (a b : Api.EventItem) (z : float) :
  In a (JS.nullish events []) ->
  In b (JS.nullish events []) ->
  EventsMap.hasCoordinates a = true ->
  EventsMap.hasCoordinates b = true ->
  Api.severity_score a = Some z ->
  PrimFloat.eqb z 0 = true ->
  Api.severity_score b = None ->
  let point := fun e : Api.EventItem =>
    (Api.lat e, Api.lon e, JS.nullish (Api.severity_score e) 1%float) in
  estimate events = map point (EventsMap.validEvents events)
  /\ In a (EventsMap.validEvents events)
  /\ In b (EventsMap.validEvents events)
  /\ point a = (Api.lat a, Api.lon a, z)
  /\ point b = (Api.lat b, Api.lon b, 1%float)
  /\ In (Api.lat a, Api.lon a, z) (estimate events)
  /\ In (Api.lat b, Api.lon b, 1%float) (estimate events)
  /\ PrimFloat.ltb z 1 = true
  /\ PrimFloat.eqb (Ranking.score_key a) (Ranking.score_key b) = true
  /\ Page.compareEvents Date_parse a b
     = (Ranking.time_key Date_parse b - Ranking.time_key Date_parse a)%float
  /\ Page.compareEvents Date_parse b a
     = (Ranking.time_key Date_parse a - Ranking.time_key Date_parse b)%float.
Proof.
  intros Ia Ib Ca Cb Ha Hz Hb point.
  assert (Va : In a (EventsMap.validEvents events))
    by (unfold EventsMap.validEvents; apply filter_In; now split).
  assert (Vb : In b (EventsMap.validEvents events))
    by (unfold EventsMap.validEvents; apply filter_In; now split).
  assert (Pa : point a = (Api.lat a, Api.lon a, z))
    by (unfold point; now rewrite Ha).
  assert (Pb : point b = (Api.lat b, Api.lon b, 1%float))
    by (unfold point; now rewrite Hb).
  assert (Ka : Ranking.score_key a = z) by (unfold Ranking.score_key; now rewrite Ha).
  assert (Kb : Ranking.score_key b = 0%float)
    by (unfold Ranking.score_key; now rewrite Hb).
  pose proof (eqb_sym_true _ _ Hz) as Hz'.
  split; [apply estimate_unfold |].
  split; [exact Va |]. split; [exact Vb |]. split; [exact Pa |]. split; [exact Pb |].
  split; [rewrite estimate_unfold, <- Pa; now apply in_map |].
  split; [rewrite estimate_unfold, <- Pb; now apply in_map |].
  split; [now apply zero_below_one |].
  split; [now rewrite Ka, Kb |].
  rewrite !comparator_keys, Ka, Kb. unfold JS.strict_ne. rewrite Hz, Hz'.
  split; reflexivity.
Qed.

Lemma zero_score_weighs_less_than_none_witness :
  let events := Some [Examples.quake_5_noon; Examples.quake_zero;
                      Examples.flood_unscored; Examples.flood_unscored_located] in
  estimate events
  = [(JS.Num 10%float, JS.Num 20%float, 5%float);
     (JS.Num 10%float, JS.Num 20%float, 0%float);
     (JS.Num 30%float, JS.Num 40%float, 1%float)]
  /\ In (JS.Num 10%float, JS.Num 20%float, 0%float) (estimate events)
  /\ In (JS.Num 30%float, JS.Num 40%float, 1%float) (estimate events)
  /\ JS.SortCompare (Page.compareEvents Dates.Date_parse)
       Examples.quake_zero Examples.flood_unscored_located = Eq.
Proof.
  cbv zeta.
  destruct (zero_score_weighs_less_than_none Dates.Date_parse
              (Some [Examples.quake_5_noon; Examples.quake_zero;
                     Examples.flood_unscored; Examples.flood_unscored_located])
              Examples.quake_zero Examples.flood_unscored_located 0%float)
    as (H1 & _ & _ & _ & _ & H6 & H7 & _ & _ & H10 & _);
    [cbn; tauto | cbn; tauto | reflexivity .. |].
  split; [rewrite H1; reflexivity |].
  split; [exact H6 |]. split; [exact H7 |].
  unfold JS.SortCompare. rewrite H10. vm_compute. reflexivity.
Defined.

(* ================================================================== *)
(** * Further properties                                                *)
(* ================================================================== *)

(** ** The request of [fetchEvents] *)

Ltac subseq_greedy :=
  repeat first [apply subseq_nil | apply subseq_keep | apply subseq_skip].

Lemma subseq_In {A : Type} (l1 l2 : list A) (x : A) :
  subseq l1 l2 -> In x l1 -> In x l2.
Proof.
  induction 1 as [| y l1 l2 _ IH | y l1 l2 _ IH]; cbn; intuition.
Qed.

Lemma get_In (name : string) (q : Fetch.URLSearchParams) :
  Fetch.get name q <> None -> In name (map fst q).
Proof.
  induction q as [| [k v] q IH]; cbn [Fetch.get map fst]; [congruence |].
  destruct (String.eqb_spec k name) as [-> | _]; [now left | right; auto].
Qed.

Lemma query_names (String_ : JS.number -> string) (params : Fetch.FetchEventsParams) :
  NoDup (map fst (Fetch.query String_ params))
  /\ subseq (map fst (Fetch.query String_ params))
       ["hazard"; "feed"; "min_magnitude"; "limit"; "since_hours"; "min_severity_level"].
Proof.
  destruct params as [h f l m s lv]. unfold Fetch.query.
  cbn [Fetch.hazard Fetch.feed Fetch.limit Fetch.min_magnitude Fetch.since_hours
       Fetch.min_severity_level].
  destruct f as [[| c f] |], m as [m |], l as [l |], s as [s |], lv as [[| c' lv] |];
    cbn; (split; [| subseq_greedy]);
    repeat (constructor; [cbn; intuition discriminate |]); constructor.
Qed.

(** X1.  Whatever the parameters, the query names each parameter at most
    once, in the order hazard, feed, min_magnitude, limit, since_hours,
    min_severity_level, and always starts with the hazard, which is
    "earthquake" when none is given. *)
Theorem query_shape (String_ : JS.number -> string) (params : Fetch.FetchEventsParams) :
  NoDup (map fst (Fetch.query String_ params))
  /\ subseq (map fst (Fetch.query String_ params))
       ["hazard"; "feed"; "min_magnitude"; "limit"; "since_hours"; "min_severity_level"]
  /\ hd_error (Fetch.query String_ params)
     = Some ("hazard", JS.nullish (Fetch.hazard params) "earthquake").
Proof.
  destruct (query_names String_ params) as [Hn Hs].
  split; [exact Hn | split; [exact Hs |]].
  destruct params as [h f l m s lv]. unfold Fetch.query.
  cbn [Fetch.hazard Fetch.feed Fetch.limit Fetch.min_magnitude Fetch.since_hours
       Fetch.min_severity_level].
  destruct f as [[| c f] |], m as [m |], l as [l |], s as [s |], lv as [[| c' lv] |];
    reflexivity.
Qed.

(** X2.  Which parameters are sent.  A numeric parameter (limit,
    since_hours, min_magnitude) is sent whenever it is given, also when it is
    0, as the text [String] makes of it; feed and min_severity_level are
    sent only when they are non-empty strings; nothing else is sent. *)
Theorem query_lookup (String_ : JS.number -> string) (params : Fetch.FetchEventsParams) :
  Fetch.get "hazard" (Fetch.query String_ params)
  = Some (JS.nullish (Fetch.hazard params) "earthquake")
  /\ Fetch.get "limit" (Fetch.query String_ params)
     = option_map String_ (Fetch.limit params)
  /\ Fetch.get "since_hours" (Fetch.query String_ params)
     = option_map String_ (Fetch.since_hours params)
  /\ Fetch.get "min_magnitude" (Fetch.query String_ params)
     = option_map String_ (Fetch.min_magnitude params)
  /\ Fetch.get "feed" (Fetch.query String_ params)
     = (if JS.truthy (Fetch.feed params) then Fetch.feed params else None)
  /\ Fetch.get "min_severity_level" (Fetch.query String_ params)
     = (if JS.truthy (Fetch.min_severity_level params)
        then Fetch.min_severity_level params else None)
  /\ (forall name, Fetch.get name (Fetch.query String_ params) <> None ->
                   In name ["hazard"; "feed"; "min_magnitude"; "limit";
                            "since_hours"; "min_severity_level"]).
Proof.
  assert (Hnames : forall name, Fetch.get name (Fetch.query String_ params) <> None ->
                     In name ["hazard"; "feed"; "min_magnitude"; "limit";
                              "since_hours"; "min_severity_level"]).
  { intros name H. eapply subseq_In; [apply (query_names String_ params) |].
    now apply get_In. }
  revert Hnames.
  destruct params as [h f l m s lv]. unfold Fetch.query.
  cbn [Fetch.hazard Fetch.feed Fetch.limit Fetch.min_magnitude Fetch.since_hours
       Fetch.min_severity_level].
  intros Hnames.
  repeat (split; [destruct f as [[| c f] |], m as [m |], l as [l |], s as [s |],
                    lv as [[| c' lv] |]; reflexivity |]).
  exact Hnames.
Qed.

Lemma strip_slash_app (s : string) : Fetch.strip_slash (s ++ "/") = s.
Proof.
  induction s as [| c s IH]; [reflexivity |].
  cbn [String.append Fetch.strip_slash]. rewrite IH.
  now destruct s.
Qed.

Lemma ends_with_slash_spec (s : string) :
  ends_with_slash s = true <-> exists t, s = (t ++ "/")%string.
Proof.
  split.
  - induction s as [| c s IH]; [discriminate |].
    cbn [ends_with_slash]. destruct s as [| c' s'].
    + intros H. apply Ascii.eqb_eq in H as ->. now exists EmptyString.
    + intros H. destruct (IH H) as [t ->]. now exists (String c t).
  - intros [t ->]. induction t as [| c t IH]; [reflexivity |].
    cbn [String.append ends_with_slash]. rewrite IH. now destruct t.
Qed.

Lemma strip_slash_fixed (s : string) :
  ends_with_slash s = false -> Fetch.strip_slash s = s.
Proof.
  induction s as [| c s IH]; [reflexivity |].
  cbn [Fetch.strip_slash ends_with_slash]. destruct s as [| c' s'].
  - now intros ->.
  - intros H. now rewrite IH.
Qed.

(** X3.  The base URL is never empty: an unset or empty variable, and one
    that is just a slash, give the default.  A non-empty variable that does
    not end with a slash is taken as it is, and the same variable with one
    slash added gives the same base, so the request URL has exactly one
    slash before [events] either way. *)
Theorem API_BASE_normalised (s : string) :
  s <> "" ->
  ends_with_slash s = false ->
  Fetch.API_BASE (Some s) = s
  /\ Fetch.API_BASE (Some (s ++ "/")%string) = s
  /\ Fetch.API_BASE None = "http://127.0.0.1:8000"
  /\ Fetch.API_BASE (Some "") = "http://127.0.0.1:8000"
  /\ Fetch.API_BASE (Some "/") = "http://127.0.0.1:8000"
  /\ (forall env, Fetch.API_BASE env <> "").
Proof.
  intros Hne Hslash. unfold Fetch.API_BASE.
  rewrite strip_slash_app, (strip_slash_fixed s Hslash).
  repeat split; try (now destruct s).
  intros [e |]; [| discriminate].
  unfold Fetch.or_else. destruct (Fetch.strip_slash e); discriminate.
Qed.

Lemma API_BASE_normalised_witness :
  Fetch.API_BASE (Some "http://api.example") = "http://api.example"
  /\ Fetch.API_BASE (Some "http://api.example/") = "http://api.example".
Proof.
  destruct (API_BASE_normalised "http://api.example") as (H1 & H2 & _).
  - discriminate.
  - reflexivity.
  - split; [exact H1 | exact H2].
Defined.

(** ** The outcome of [fetchEvents] and what [load] shows of it *)

Lemma append_nonempty_l (a b : string) : a <> "" -> (a ++ b)%string <> "".
Proof. destruct a; [congruence | discriminate]. Qed.

Section Requests.
Variable String_ : JS.number -> string.
Variable toString : Fetch.URLSearchParams -> string.
Variable env : option string.
Variable fetch : string -> Fetch.answer.

(** X4.  [fetchEvents] resolves only with the parsed body of a response
    that is ok: it resolves with [v] exactly when the request was answered,
    the response is ok and its body reads as [v].  A network failure and an
    unreadable body reject with the error they raise. *)
Theorem fetchEvents_resolves (params : Fetch.FetchEventsParams) (v : Api.EventsResponse) :
  (Fetch.fetchEvents String_ toString env fetch params = Page.Fulfilled v
   <-> exists r, fetch (Fetch.url String_ toString env params) = Fetch.Responded r
                 /\ Fetch.ok r = true /\ Fetch.json r = Fetch.Read v)
  /\ (forall e, fetch (Fetch.url String_ toString env params) = Fetch.NetworkError e ->
                Fetch.fetchEvents String_ toString env fetch params = Page.Rejected e)
  /\ (forall r e, fetch (Fetch.url String_ toString env params) = Fetch.Responded r ->
                  Fetch.ok r = true -> Fetch.json r = Fetch.Unreadable e ->
                  Fetch.fetchEvents String_ toString env fetch params = Page.Rejected e).
Proof.
  unfold Fetch.fetchEvents. split; [split | split].
  - destruct (fetch _) as [e | r]; [discriminate |].
    destruct (Fetch.ok r) eqn:Hok; cbn [negb]; [| discriminate].
    destruct (Fetch.json r) as [w | e] eqn:Hj; [| discriminate].
    intros H. injection H as <-. now exists r.
  - intros (r & -> & -> & ->). reflexivity.
  - now intros e ->.
  - now intros r e -> -> ->.
Qed.

(** X5.  A response that is not ok always rejects, whatever its body, with
    the message "API", the status, a colon and the body text, or "Failed to
    fetch" in place of a body text that is empty or cannot be read.  The
    message is never empty. *)
Theorem fetchEvents_failure (params : Fetch.FetchEventsParams) (r : Fetch.Response) :
  fetch (Fetch.url String_ toString env params) = Fetch.Responded r ->
  Fetch.ok r = false ->
  Fetch.fetchEvents String_ toString env fetch params
  = Page.Rejected (Page.ThrownObject (Some (Fetch.failure_message String_ r)))
  /\ Fetch.failure_message String_ r <> ""
  /\ (forall t, Fetch.text r = Fetch.Read t -> t <> "" ->
                Fetch.failure_message String_ r
                = ("API " ++ String_ (Fetch.status r) ++ ": " ++ t)%string)
  /\ (Fetch.text r = Fetch.Read "" \/ (exists e, Fetch.text r = Fetch.Unreadable e) ->
      Fetch.failure_message String_ r
      = ("API " ++ String_ (Fetch.status r) ++ ": Failed to fetch")%string).
Proof.
  intros Hr Hok. unfold Fetch.fetchEvents, Fetch.failure_message, Fetch.text_or_empty.
  rewrite Hr, Hok. cbn [negb].
  split; [reflexivity |]. split; [discriminate |]. split.
  - intros t -> Ht. now destruct t.
  - intros [-> | [e ->]]; reflexivity.
Qed.

(** X6.  When the flood feed answers with a response that is not ok while
    the earthquake request resolves, a cycle that is not cancelled leaves the
    events it found, clears the loading flag and shows the banner with the
    message of that response; the earthquake result is not published. *)
Theorem flood_failure_shown (eq_first : bool) (r : Fetch.Response)
  (v : Api.EventsResponse) (s : Page.State) (Date_parse : string -> JS.number) :
  fetch (Fetch.url String_ toString env Fetch.flood_request) = Fetch.Responded r ->
  Fetch.ok r = false ->
  Fetch.fetchEvents String_ toString env fetch Fetch.earthquake_request
  = Page.Fulfilled v ->
  let s' :=
    Page.load_resume Date_parse false
      (Fetch.cycle String_ toString env fetch eq_first) (Page.load_begin s) in
  s' = {| Page.events := Page.events s; Page.loading := false;
          Page.error := Some (Fetch.failure_message String_ r) |}
  /\ PageView.banner s' = Some (Fetch.failure_message String_ r).
Proof.
  intros Hr Hok Heq s'.
  assert (Hfl : Fetch.fetchEvents String_ toString env fetch Fetch.flood_request
                = Page.Rejected (Page.ThrownObject (Some (Fetch.failure_message String_ r))))
    by (unfold Fetch.fetchEvents; now rewrite Hr, Hok).
  assert (Es : s' = {| Page.events := Page.events s; Page.loading := false;
                       Page.error := Some (Fetch.failure_message String_ r) |}).
  { unfold s', Page.load_resume, Page.Promise_all, Fetch.cycle.
    cbn [Page.eq_result Page.fl_result]. now rewrite Heq, Hfl. }
  split; [exact Es |]. rewrite Es. unfold PageView.banner. cbn [Page.error JS.truthy].
  unfold Fetch.failure_message. reflexivity.
Qed.

End Requests.

Lemma flood_failure_shown_witness :
  PageView.banner
    (Page.load_resume Dates.Date_parse false
       (Fetch.cycle Samples.String_ Samples.toString (Some "http://api.example/")
          Samples.flood_feed_down true)
       (Page.load_begin Examples.showing))
  = Some "API 503: upstream down".
Proof.
  destruct (flood_failure_shown Samples.String_ Samples.toString
              (Some "http://api.example/") Samples.flood_feed_down true
              Samples.unavailable (Examples.response [Examples.quake_5_noon])
              Examples.showing Dates.Date_parse)
    as [_ H]; [vm_compute; reflexivity .. |].
  rewrite H. vm_compute. reflexivity.
Defined.

Lemma fetchEvents_failure_witness :
  Fetch.fetchEvents Samples.String_ Samples.toString (Some "http://api.example/")
    Samples.flood_feed_down Fetch.flood_request
  = Page.Rejected (Page.ThrownObject (Some "API 503: upstream down")).
Proof.
  destruct (fetchEvents_failure Samples.String_ Samples.toString
              (Some "http://api.example/") Samples.flood_feed_down
              Fetch.flood_request Samples.unavailable)
    as [H _]; [vm_compute; reflexivity .. |].
  rewrite H. vm_compute. reflexivity.
Defined.

(** X7.  What the banner shows after a failed cycle that was not
    cancelled: the message of the rejection; the text "Failed to load
    events" when the rejection has no message; and nothing at all when the
    message is the empty string, although the error is then set. *)
Theorem banner_after_failure (Date_parse : string -> JS.number) (f : Page.Fetched)
  (e : Page.thrown) (s : Page.State) :
  Page.Promise_all f = Page.Rejected e ->
  let s' := Page.load_resume Date_parse false f s in
  PageView.banner s'
  = match Page.opt_message e with
    | None => Some "Failed to load events"
    | Some EmptyString => None
    | Some m => Some m
    end
  /\ Page.error s' <> None
  /\ PageView.loading_shown s' = false.
Proof.
  intros H s'. unfold s', Page.load_resume. rewrite H. cbn [negb].
  unfold PageView.banner, PageView.loading_shown. cbn [Page.error Page.setError Page.setLoading Page.loading].
  split; [| split; [discriminate | reflexivity]].
  destruct (Page.opt_message e) as [[| c m] |]; reflexivity.
Qed.

Lemma banner_after_failure_witness :
  PageView.banner
    (Page.load_resume Dates.Date_parse false Examples.flood_down Examples.showing)
  = Some "API 503: upstream down".
Proof.
  exact (proj1 (banner_after_failure Dates.Date_parse Examples.flood_down
                  (Page.ThrownObject (Some "API 503: upstream down"))
                  Examples.showing eq_refl)).
Defined.

(** ** Overlapping cycles *)

(** X8.  Two cycles in flight on a poller that is not stopped: when the
    first settles, with whatever outcome, the loading flag is cleared
    although the second is still awaiting its requests; when the second then
    settles successfully, the events are its merged list, whatever the first
    published.  An error set by a failure of the first is still set, and
    shown beside the new events; a success of the first leaves the error as
    it was. *)
Theorem last_settle_wins (Date_parse : string -> JS.number) (p : Page.Poller)
  (f1 f2 : Page.Fetched) (eq2 fl2 : Api.EventsResponse) (n : nat) :
  Page.cancelled p = false ->
  Page.inflight p = S (S n) ->
  Page.eq_result f2 = Page.Fulfilled eq2 ->
  Page.fl_result f2 = Page.Fulfilled fl2 ->
  let p1 := Page.step Date_parse p (Page.Settle f1) in
  let p2 := Page.run Date_parse p [Page.Settle f1; Page.Settle f2] in
  Page.loading (Page.view p1) = false
  /\ Page.inflight p1 = S n
  /\ Page.events (Page.view p2) = Page.merge Date_parse eq2 fl2
  /\ Page.loading (Page.view p2) = false
  /\ Page.inflight p2 = n
  /\ (forall e, Page.Promise_all f1 = Page.Rejected e ->
                Page.error (Page.view p2)
                = Some (JS.nullish (Page.opt_message e) "Failed to load events"))
  /\ (forall r, Page.Promise_all f1 = Page.Fulfilled r ->
                Page.error (Page.view p2) = Page.error (Page.view p)).
Proof.
  intros Hc Hin He Hf p1 p2.
  unfold p2, p1, Page.run. cbn [fold_left Page.step].
  rewrite Hin. cbn [Page.inflight Page.view Page.cancelled]. rewrite Hc.
  rewrite (load_publishes_merge Date_parse f2 eq2 fl2 _ He Hf).
  unfold Page.load_resume. cbn [negb].
  destruct (Page.Promise_all f1) as [[eq1 fl1] | e1]; cbn;
    repeat split; try reflexivity; intros x Hx; now inversion Hx.
Qed.

Lemma last_settle_wins_witness :
  let p := Page.step Dates.Date_parse Page.mount Page.Tick in
  let p2 :=
    Page.run Dates.Date_parse p
      [Page.Settle Examples.flood_down;
       Page.Settle (Examples.both [Examples.quake_9_morning] [Examples.flood_5_noon])] in
  Page.view p2
  = {| Page.events := [Examples.quake_9_morning; Examples.flood_5_noon];
       Page.loading := false;
       Page.error := Some "API 503: upstream down" |}.
Proof.
  cbv zeta.
  destruct (last_settle_wins Dates.Date_parse
              (Page.step Dates.Date_parse Page.mount Page.Tick)
              Examples.flood_down
              (Examples.both [Examples.quake_9_morning] [Examples.flood_5_noon])
              _ _ 0 eq_refl eq_refl eq_refl eq_refl)
    as (_ & _ & Hev & Hl & _ & Herr & _).
  specialize (Herr _ eq_refl).
  destruct (Page.view _) as [ev lo er]. cbn [Page.events Page.loading Page.error] in *.
  rewrite Hev, Hl, Herr. vm_compute. reflexivity.
Defined.

(** ** More on the merged list *)

Lemma Array_sort_of_sorted {A : Type} (comparefn : A -> A -> float) (l : list A) :
  StronglySorted (fun a b => JS.SortCompare comparefn a b <> Gt) l ->
  JS.Array_sort comparefn l = l.
Proof.
  induction 1 as [| x l Hs IH Hx]; [reflexivity |].
  cbn [JS.Array_sort]. rewrite IH. destruct l as [| y l]; [reflexivity |].
  cbn [JS.insert]. inversion Hx as [| ? ? Hxy _]; subst.
  now destruct (JS.SortCompare comparefn x y).
Qed.

(** X9.  Merging loses and invents nothing, whatever the comparator makes of
    the events (also with NaN keys): the merged list has as many events as
    the two feeds together and exactly their events; a response without an
    [events] field counts as an empty feed. *)
Theorem merge_keeps_every_event (Date_parse : string -> JS.number)
  (eq fl : Api.EventsResponse) :
  List.length (Page.merge Date_parse eq fl)
  = List.length (JS.nullish (Api.events eq) [])
    + List.length (JS.nullish (Api.events fl) [])
  /\ (forall e, In e (Page.merge Date_parse eq fl)
                <-> In e (JS.nullish (Api.events eq) [])
                    \/ In e (JS.nullish (Api.events fl) []))
  /\ (Api.events eq = None ->
      Page.merge Date_parse eq fl
      = JS.Array_sort (Page.compareEvents Date_parse) (JS.nullish (Api.events fl) []))
  /\ (Api.events eq = None -> Api.events fl = None -> Page.merge Date_parse eq fl = []).
Proof.
  unfold Page.merge.
  pose proof (Array_sort_perm (Page.compareEvents Date_parse)
                (JS.nullish (Api.events eq) [] ++ JS.nullish (Api.events fl) [])) as Hp.
  split; [| split; [| split]].
  - rewrite <- (Permutation_length Hp). apply length_app.
  - intros e. rewrite <- in_app_iff. split; intros H.
    + eapply Permutation_in; [apply Permutation_sym, Hp | exact H].
    + eapply Permutation_in; [apply Hp | exact H].
  - now intros ->.
  - now intros -> ->.
Qed.

(** X10.  Publishing is idempotent where the order is total: when no key of
    the two feeds is NaN, a cycle whose earthquake feed returns the list
    just published and whose flood feed returns nothing publishes the same
    list again, in the same order. *)
Theorem republished_list_unchanged (Date_parse : string -> JS.number)
  (eq fl eq' fl' : Api.EventsResponse) :
  forallb (Ranking.keys_defined Date_parse)
    (JS.nullish (Api.events eq) [] ++ JS.nullish (Api.events fl) []) = true ->
  Api.events eq' = Some (Page.merge Date_parse eq fl) ->
  JS.nullish (Api.events fl') [] = [] ->
  Page.merge Date_parse eq' fl' = Page.merge Date_parse eq fl.
Proof.
  intros Hdef Heq Hfl. unfold Page.merge at 1. rewrite Heq, Hfl.
  cbn [JS.nullish]. rewrite app_nil_r.
  apply Array_sort_of_sorted. unfold Page.merge.
  rewrite forallb_forall in Hdef. apply Forall_forall in Hdef.
  apply (Array_sort_sorted _ (fun e => Ranking.keys_defined Date_parse e = true));
    [apply verdict_opp | apply verdict_trans | exact Hdef].
Qed.

Lemma republished_list_unchanged_witness :
  let eq := Examples.response [Examples.quake_5_noon; Examples.quake_9_morning] in
  let fl := Examples.response [Examples.flood_unscored; Examples.flood_5_noon] in
  Page.merge Dates.Date_parse
    (Examples.response (Page.merge Dates.Date_parse eq fl)) (Examples.response [])
  = Page.merge Dates.Date_parse eq fl.
Proof.
  cbv zeta.
  apply (republished_list_unchanged Dates.Date_parse
           (Examples.response [Examples.quake_5_noon; Examples.quake_9_morning])
           (Examples.response [Examples.flood_unscored; Examples.flood_5_noon])).
  - vm_compute. reflexivity.
  - reflexivity.
  - reflexivity.
Defined.

(** ** The hazard views *)

Lemma filter_filter_comm {A : Type} (f g : A -> bool) (l : list A) :
  filter f (filter g l) = filter g (filter f l).
Proof.
  induction l as [| x l IH]; [reflexivity |]. cbn [filter].
  destruct (f x) eqn:Ef, (g x) eqn:Eg; cbn [filter]; rewrite ?Ef, ?Eg, IH; reflexivity.
Qed.

Lemma filter_length_disjoint {A : Type} (f g : A -> bool) (l : list A) :
  (forall x, f x = true -> g x = false) ->
  List.length (filter f l) + List.length (filter g l) <= List.length l
  /\ ((forall x, In x l -> f x = true \/ g x = true) ->
      List.length (filter f l) + List.length (filter g l) = List.length l).
Proof.
  intros Hd. induction l as [| x l [IH1 IH2]]; [cbn; auto |].
  cbn [filter]. split.
  - destruct (f x) eqn:Ef; [rewrite (Hd x Ef) |]; destruct (g x); cbn [List.length]; lia.
  - intros Hall.
    assert (IH : List.length (filter f l) + List.length (filter g l) = List.length l)
      by (apply IH2; intros y Hy; apply Hall; now right).
    destruct (Hall x (or_introl eq_refl)) as [Ef | Eg].
    + rewrite Ef, (Hd x Ef). cbn [List.length]. lia.
    + rewrite Eg. destruct (f x) eqn:Ef; [rewrite (Hd x Ef) in Eg; discriminate |].
      cbn [List.length]. lia.
Qed.

(** X11.  The number shown beside the hazard buttons: under "all" it is the
    size of the collection; the numbers under "earthquake" and under "flood"
    never add up to more than that, and add up to exactly that when every
    event is an earthquake or a flood. *)
Theorem showing_counts (s : Page.State) :
  PageView.showing s Page.All = List.length (Page.events s)
  /\ PageView.showing s Page.Earthquake + PageView.showing s Page.Flood
     <= List.length (Page.events s)
  /\ ((forall e, In e (Page.events s) ->
                 Api.event_type e = "earthquake" \/ Api.event_type e = "flood") ->
      PageView.showing s Page.Earthquake + PageView.showing s Page.Flood
      = List.length (Page.events s)).
Proof.
  unfold PageView.showing. cbn [Page.filteredEvents Page.hazard_string].
  split; [reflexivity |].
  destruct (filter_length_disjoint
              (fun e => (Api.event_type e =? "earthquake")%string)
              (fun e => (Api.event_type e =? "flood")%string) (Page.events s))
    as [Hle Heq].
  - intros x Hx. apply String.eqb_eq in Hx. now rewrite Hx.
  - split; [exact Hle |]. intros Hall. apply Heq. intros e He.
    destruct (Hall e He) as [-> | ->]; auto.
Qed.

Lemma showing_counts_witness :
  PageView.showing
    {| Page.events := [Examples.quake_5_noon; Examples.flood_unscored;
                       Examples.quake_9_morning];
       Page.loading := false; Page.error := None |} Page.Earthquake
  + PageView.showing
      {| Page.events := [Examples.quake_5_noon; Examples.flood_unscored;
                         Examples.quake_9_morning];
         Page.loading := false; Page.error := None |} Page.Flood
  = 3.
Proof.
  apply (proj2 (proj2 (showing_counts
    {| Page.events := [Examples.quake_5_noon; Examples.flood_unscored;
                       Examples.quake_9_morning];
       Page.loading := false; Page.error := None |}))).
  intros e [<- | [<- | [<- | []]]]; cbn; auto.
Defined.

(** X12.  How an event is labelled agrees with the view it appears in: an
    event shown under "earthquake" has the pill EQ, the magnitude and depth
    line and a circle on the map; one shown under "flood" has the pill FLOOD,
    the subtype line and a triangle.  An event of any other type appears
    under "all" only, with the pill EVENT, but is otherwise drawn as a
    flood: the subtype line, "Flood alert" when it has no subtype, and a
    triangle. *)
Theorem labels_agree_with_views (events : list Api.EventItem) (e : Api.EventItem) :
  (In e (Page.filteredEvents events Page.Earthquake) ->
   Page.hazardPill e = "EQ"
   /\ PageView.detail e = PageView.QuakeDetail (Api.magnitude e) (Api.depth_km e)
   /\ EventsMap.shape (EventsMap.glyph e) = EventsMap.Circle)
  /\ (In e (Page.filteredEvents events Page.Flood) ->
      Page.hazardPill e = "FLOOD"
      /\ PageView.detail e
         = PageView.AlertDetail (JS.nullish (Api.hazard_subtype e) "Flood alert")
      /\ EventsMap.shape (EventsMap.glyph e) = EventsMap.Triangle)
  /\ (Api.event_type e <> "earthquake" -> Api.event_type e <> "flood" ->
      Page.hazardPill e = "EVENT"
      /\ PageView.detail e
         = PageView.AlertDetail (JS.nullish (Api.hazard_subtype e) "Flood alert")
      /\ EventsMap.shape (EventsMap.glyph e) = EventsMap.Triangle
      /\ ~ In e (Page.filteredEvents events Page.Earthquake)
      /\ ~ In e (Page.filteredEvents events Page.Flood)
      /\ (In e (Page.filteredEvents events Page.All) <-> In e events)).
Proof.
  unfold Page.hazardPill, PageView.detail, EventsMap.glyph.
  cbn [Page.filteredEvents Page.hazard_string EventsMap.shape].
  split; [| split].
  - rewrite filter_In, String.eqb_eq. intros [_ ->]. auto.
  - rewrite filter_In, String.eqb_eq. intros [_ ->]. auto.
  - intros H1 H2. rewrite !filter_In, !String.eqb_eq.
    rewrite !string_eqb_false by assumption. intuition.
Qed.

Lemma filter_all {A : Type} (f : A -> bool) (l : list A) :
  (forall x, In x l -> f x = true) -> filter f l = l.
Proof.
  induction l as [| x l IH]; intros H; [reflexivity |]. cbn [filter].
  rewrite (H x (or_introl eq_refl)), IH; [reflexivity |].
  intros y Hy. apply H. now right.
Qed.

Lemma filter_none {A : Type} (f : A -> bool) (l : list A) :
  (forall x, In x l -> f x = false) -> filter f l = [].
Proof.
  induction l as [| x l IH]; intros H; [reflexivity |]. cbn [filter].
  rewrite (H x (or_introl eq_refl)), IH; [reflexivity |].
  intros y Hy. apply H. now right.
Qed.

(** X13.  The map and the hazard filter commute: the events the map draws
    from a filtered collection are the filtered events of those it would
    draw from the whole collection.  So under "earthquake" the legend counts
    no flood, under "flood" no earthquake, and the count of the selected
    hazard is the number of events drawn. *)
Theorem map_of_filtered (events : list Api.EventItem) (hazard : Page.HazardFilter) :
  EventsMap.validEvents (Some (Page.filteredEvents events hazard))
  = Page.filteredEvents (EventsMap.validEvents (Some events)) hazard
  /\ EventsMap.counts (EventsMap.validEvents (Some (Page.filteredEvents events Page.Earthquake)))
     = (List.length
          (EventsMap.validEvents (Some (Page.filteredEvents events Page.Earthquake))), 0)
  /\ EventsMap.counts (EventsMap.validEvents (Some (Page.filteredEvents events Page.Flood)))
     = (0, List.length
             (EventsMap.validEvents (Some (Page.filteredEvents events Page.Flood)))).
Proof.
  unfold EventsMap.validEvents, EventsMap.counts. cbn [JS.nullish fst snd].
  split; [| split].
  - destruct hazard; cbn [Page.filteredEvents]; auto using filter_filter_comm.
  - cbn [Page.filteredEvents Page.hazard_string].
    rewrite (filter_all (fun e => (Api.event_type e =? "earthquake")%string)),
      (filter_none (fun e => (Api.event_type e =? "flood")%string));
      [reflexivity | |];
      intros x Hx; apply filter_In in Hx as [Hx _]; apply filter_In in Hx as [_ Hx];
      apply String.eqb_eq in Hx; now rewrite Hx.
  - cbn [Page.filteredEvents Page.hazard_string].
    rewrite (filter_none (fun e => (Api.event_type e =? "earthquake")%string)),
      (filter_all (fun e => (Api.event_type e =? "flood")%string));
      [reflexivity | |];
      intros x Hx; apply filter_In in Hx as [Hx _]; apply filter_In in Hx as [_ Hx];
      apply String.eqb_eq in Hx; now rewrite Hx.
Qed.

(** ** What the map draws *)

(** X14.  In events mode the map draws one glyph per event with usable
    coordinates, never more glyphs than there are events, each at a position
    made of two numbers that are not NaN; in heat map mode it draws none.
    The circles are as many as the legend counts earthquakes, and the
    triangles at least as many as it counts floods. *)
Theorem glyphs_drawn (events : option (list Api.EventItem)) :
  let drawn := EventsMap.glyphs EventsMap.events_mode events in
  let circles :=
    filter (fun g => match EventsMap.shape g with
                     | EventsMap.Circle => true | _ => false end) drawn in
  let triangles :=
    filter (fun g => match EventsMap.shape g with
                     | EventsMap.Triangle => true | _ => false end) drawn in
  List.length drawn = List.length (EventsMap.validEvents events)
  /\ List.length drawn <= List.length (JS.nullish events [])
  /\ EventsMap.glyphs EventsMap.heatmap_mode events = []
  /\ (forall g, In g drawn ->
                exists la lo, EventsMap.position g = (JS.Num la, JS.Num lo)
                              /\ PrimFloat.is_nan la = false
                              /\ PrimFloat.is_nan lo = false)
  /\ List.length circles = fst (EventsMap.counts (EventsMap.validEvents events))
  /\ snd (EventsMap.counts (EventsMap.validEvents events)) <= List.length triangles.
Proof.
  cbv zeta. cbn [EventsMap.glyphs]. unfold EventsMap.counts. cbn [fst snd].
  split; [apply length_map |].
  split; [rewrite length_map; apply filter_length_le |].
  split; [reflexivity |].
  split.
  - intros g Hg. apply in_map_iff in Hg as (e & <- & He).
    unfold EventsMap.validEvents in He. apply filter_In in He as [_ He].
    apply hasCoordinates_numbers in He as (la & lo & Ela & Elo & Hla & Hlo).
    exists la, lo. cbn. now rewrite Ela, Elo.
  - induction (EventsMap.validEvents events) as [| e l [IH1 IH2]]; [cbn; auto |].
    cbn [map filter EventsMap.glyph EventsMap.shape].
    destruct (String.eqb_spec (Api.event_type e) "earthquake") as [E | E].
    + rewrite E. cbn [List.length String.eqb]. cbn. split; [now f_equal | exact IH2].
    + destruct (Api.event_type e =? "flood")%string; cbn [List.length]; split;
        try exact IH1; lia.
Qed.

Lemma append_inj_l (s a b : string) : (s ++ a)%string = (s ++ b)%string -> a = b.
Proof.
  induction s as [| c s IH]; cbn; [auto |]. intros H. injection H as H. auto.
Qed.

Lemma append_assoc (a b c : string) : ((a ++ b) ++ c)%string = (a ++ (b ++ c))%string.
Proof. induction a as [| x a IH]; cbn; [reflexivity | now rewrite IH]. Qed.

(** X15.  The list card and the map glyph of an event carry the same React
    key, the source and the source's id joined by a dash.  Among events of
    one source the key tells the ids apart: the keys are equal exactly when
    the ids are.  Across sources it need not: a source that is another
    source followed by a dash and some text collides with it. *)
Theorem keys_within_source (e1 e2 : Api.EventItem) (c1 c2 : PageView.Card) :
  PageView.card e1 = PageView.Shown c1 ->
  PageView.card e2 = PageView.Shown c2 ->
  EventsMap.glyph_key (EventsMap.glyph e1) = PageView.key c1
  /\ (Api.source e1 = Api.source e2 ->
      (PageView.key c1 = PageView.key c2
       <-> Api.source_event_id e1 = Api.source_event_id e2))
  /\ (forall x : string,
         Api.source e2 = (Api.source e1 ++ "-" ++ x)%string ->
         Api.source_event_id e1 = (x ++ "-" ++ Api.source_event_id e2)%string ->
         PageView.key c1 = PageView.key c2).
Proof.
  intros E1 E2. unfold PageView.card in E1, E2.
  destruct (Api.severity_level e1); [| discriminate].
  destruct (Api.severity_level e2); [| discriminate].
  injection E1 as <-. injection E2 as <-. cbn [PageView.key].
  split; [reflexivity | split].
  - intros Hs. rewrite Hs. split.
    + intros Hk. apply append_inj_l in Hk. now apply (append_inj_l "-") in Hk.
    + now intros ->.
  - intros x Hb Ha. rewrite Hb, Ha. now rewrite !append_assoc.
Qed.

Lemma keys_within_source_witness :
  let key_of := fun e =>
    match PageView.card e with
    | PageView.Shown c => PageView.key c
    | PageView.Throws => ""
    end in
  let a := Examples.quake "x-1" Examples.noon None None JS.Null JS.Null in
  let b :=
    {| Api.source := "usgs-x"; Api.event_type := "flood";
       Api.source_event_id := "1"; Api.time_utc := None; Api.place := None;
       Api.magnitude := None; Api.depth_km := None; Api.lat := JS.Null;
       Api.lon := JS.Null; Api.severity_score := None;
       Api.severity_level := Some "low"; Api.url := None;
       Api.hazard_subtype := None |} in
  (key_of Examples.quake_5_noon = "usgs-q2" /\ key_of Examples.quake_9_morning = "usgs-q3")
  /\ (key_of Examples.quake_5_noon = key_of Examples.quake_9_morning -> False)
  /\ EventsMap.glyph_key (EventsMap.glyph Examples.quake_5_noon) = "usgs-q2"
  /\ (key_of a = "usgs-x-1" /\ key_of b = "usgs-x-1")
  /\ key_of a = key_of b
  /\ (Api.source a = Api.source b -> False)
  /\ (Api.source_event_id a = Api.source_event_id b -> False).
Proof.
  cbv zeta.
  destruct (keys_within_source Examples.quake_5_noon Examples.quake_9_morning
              _ _ eq_refl eq_refl) as (Hg & Hiff & _).
  destruct (keys_within_source
              (Examples.quake "x-1" Examples.noon None None JS.Null JS.Null)
              {| Api.source := "usgs-x"; Api.event_type := "flood";
                 Api.source_event_id := "1"; Api.time_utc := None; Api.place := None;
                 Api.magnitude := None; Api.depth_km := None; Api.lat := JS.Null;
                 Api.lon := JS.Null; Api.severity_score := None;
                 Api.severity_level := Some "low"; Api.url := None;
                 Api.hazard_subtype := None |}
              _ _ eq_refl eq_refl) as (_ & _ & Hclash).
  split; [split; reflexivity |].
  split; [intros Hk; apply (Hiff eq_refl) in Hk; discriminate |].
  split; [exact Hg |].
  split; [split; reflexivity |].
  split; [exact (Hclash "x" eq_refl eq_refl) |].
  split; discriminate.
Defined.

(** X16.  [HeatLayer] on any list of points: it builds no layer exactly when
    the list is empty; otherwise the layer gets one tuple per point whose
    coordinates are numbers other than NaN, in order, so a list without a
    usable point still gives a layer, an empty one.  A point without an
    intensity weighs 1. *)
Theorem heat_layer_input (points : list EventsMap.HeatPoint) :
  (HeatLayer.heatLayerInput points = None <-> points = [])
  /\ (forall tuples, HeatLayer.heatLayerInput points = Some tuples ->
        tuples = map HeatLayer.tuple (filter HeatLayer.hasCoordinates points)
        /\ List.length tuples <= List.length points
        /\ forall t, In t tuples ->
             exists la lo, fst (fst t) = JS.Num la /\ snd (fst t) = JS.Num lo
                           /\ PrimFloat.is_nan la = false
                           /\ PrimFloat.is_nan lo = false)
  /\ (points <> [] ->
      (forall p, In p points -> HeatLayer.hasCoordinates p = false) ->
      HeatLayer.heatLayerInput points = Some [])
  /\ (forall p, EventsMap.intensity p = None -> snd (HeatLayer.tuple p) = 1%float).
Proof.
  split; [| split; [| split]].
  - destruct points; cbn; split; congruence.
  - intros tuples H.
    assert (E : tuples = map HeatLayer.tuple (filter HeatLayer.hasCoordinates points))
      by (destruct points; cbn in H; [discriminate | now injection H]).
    split; [exact E |]. subst tuples. split.
    + rewrite length_map. apply filter_length_le.
    + intros t Ht. apply in_map_iff in Ht as (p & <- & Hp).
      apply filter_In in Hp as [_ Hp]. unfold HeatLayer.hasCoordinates in Hp.
      apply andb_prop in Hp as [Hp Hlo]. apply andb_prop in Hp as [Hp Hla].
      apply andb_prop in Hp as [Tla Tlo]. cbn [HeatLayer.tuple fst snd].
      destruct (EventsMap.lat p) as [| | la | |]; try discriminate.
      destruct (EventsMap.lon p) as [| | lo | |]; try discriminate.
      exists la, lo. cbn in Hla, Hlo. rewrite negb_true_iff in Hla, Hlo. auto.
  - intros Hne Hnone. destruct points as [| p l]; [congruence |].
    unfold HeatLayer.heatLayerInput. now rewrite (filter_none _ _ Hnone).
  - intros p H. unfold HeatLayer.tuple. now rewrite H.
Qed.

(** ** The legend *)

Lemma join_nonempty (sep : string) (l : list string) :
  l <> [] -> (forall x, In x l -> x <> "") -> IntensityLegend.join sep l <> "".
Proof.
  destruct l as [| x l]; [congruence |]. intros _ H.
  assert (Hx : x <> "") by (apply H; now left).
  cbn [IntensityLegend.join]. destruct l; [exact Hx | now apply append_nonempty_l].
Qed.

Lemma pair_nonempty (String_ : JS.number -> string) (x : IntensityLegend.LegendItem) :
  IntensityLegend.pair String_ x <> "".
Proof.
  unfold IntensityLegend.pair. destruct (IntensityLegend.label x); discriminate.
Qed.

Lemma map_legend_clicks (n : nat) :
  IntensityLegend.map_legend_collapsed n = negb (Nat.even n).
Proof.
  unfold IntensityLegend.map_legend_collapsed, IntensityLegend.after_clicks.
  induction n as [| n IH]; [reflexivity |].
  rewrite Nat.iter_succ, IH. unfold IntensityLegend.click.
  rewrite negb_involutive, Nat.even_succ, Nat.negb_odd. reflexivity.
Qed.

(** X17.  The legend's "Plotted" line is left out exactly when the legend
    is collapsed or no item has a count.  [EventsMap] always gives both
    counts and mounts the legend expanded with its button: the line reads
    "Earthquakes: n • Floods: m", also when both are 0, after an even
    number of clicks on the button, and is gone after an odd number.
    Without the button the legend stays as it was mounted. *)
Theorem plotted_line_shown (String_ : JS.number -> string)
  (items : list IntensityLegend.LegendItem) (collapsed : bool) :
  (IntensityLegend.plotted_line String_ collapsed items = None
   <-> collapsed = true \/ forall x, In x items -> IntensityLegend.count x = None)
  /\ (forall valid n,
         IntensityLegend.plotted_line String_
           (IntensityLegend.map_legend_collapsed n) (IntensityLegend.items_of valid)
         = if Nat.even n
           then Some ("Earthquakes: "
                      ++ String_ (IntensityLegend.number_of_nat
                                    (fst (EventsMap.counts valid)))
                      ++ " • Floods: "
                      ++ String_ (IntensityLegend.number_of_nat
                                    (snd (EventsMap.counts valid))))%string
           else None)
  /\ (forall d n, IntensityLegend.after_clicks false d n = d).
Proof.
  split; [| split].
  - unfold IntensityLegend.plotted_line, IntensityLegend.summary, IntensityLegend.pairs.
    destruct collapsed; [split; auto |].
    split.
    + intros H. right. intros x Hx.
      destruct (IntensityLegend.count x) eqn:Ec; [| reflexivity].
      exfalso.
      assert (Hin : In x (filter (IntensityLegend.has_count) items))
        by (apply filter_In; split; [exact Hx |];
            unfold IntensityLegend.has_count; now rewrite Ec).
      assert (Hne : IntensityLegend.join " • "
                      (map (IntensityLegend.pair String_)
                         (filter IntensityLegend.has_count items)) <> "").
      { apply join_nonempty.
        - intros E. apply map_eq_nil in E. rewrite E in Hin. exact Hin.
        - intros y Hy. apply in_map_iff in Hy as (z & <- & _). apply pair_nonempty. }
      destruct (IntensityLegend.join _ _); [now apply Hne | discriminate].
    + intros [H | H]; [discriminate |]. rewrite filter_none; [reflexivity |].
      intros x Hx. unfold IntensityLegend.has_count. now rewrite (H x Hx).
  - intros valid n. rewrite map_legend_clicks.
    destruct (Nat.even n); cbn [negb]; [| reflexivity].
    unfold IntensityLegend.plotted_line, IntensityLegend.summary,
      IntensityLegend.pairs, IntensityLegend.items_of.
    cbn [filter IntensityLegend.has_count IntensityLegend.count map
         IntensityLegend.pair IntensityLegend.label IntensityLegend.join].
    cbn [String.append]. reflexivity.
  - intros d n. unfold IntensityLegend.after_clicks.
    induction n as [| n IH]; [reflexivity |]. now rewrite Nat.iter_succ, IH.
Qed.

(** ** More on the slider *)

Local Open Scope float_scope.

Lemma leb_antisym (x y : float) :
  (x <=? y) = true -> (y <=? x) = true -> (x =? y) = true.
Proof.
  intros Hxy Hyx. destruct (leb_not_nan _ _ Hxy) as [Nx Ny].
  rewrite leb_rank in Hxy, Hyx by assumption. rewrite eqb_rank by assumption.
  rewrite (lex3_antisym (rank x) (rank y)) in Hyx.
  now destruct (lex3 (rank x) (rank y)).
Qed.

Lemma clamp_between (p : MagnitudeSlider.Props) (v : float) :
  is_nan (MagnitudeSlider.min p) = false ->
  is_nan (MagnitudeSlider.max p) = false ->
  is_nan v = false ->
  (MagnitudeSlider.min p <=? MagnitudeSlider.max p) = true ->
  ((MagnitudeSlider.min p <=? v) = true -> (v <=? MagnitudeSlider.max p) = true ->
   (MagnitudeSlider.clamp p v =? v) = true)
  /\ ((v <=? MagnitudeSlider.min p) = true ->
      (MagnitudeSlider.clamp p v =? MagnitudeSlider.min p) = true)
  /\ ((MagnitudeSlider.max p <=? v) = true ->
      (MagnitudeSlider.clamp p v =? MagnitudeSlider.max p) = true).
Proof.
  intros Nmin Nmax Nv Hle. unfold MagnitudeSlider.clamp.
  set (m := JS.Math_max (MagnitudeSlider.min p) v).
  pose proof (Math_max_not_nan _ _ Nmin Nv) as Nm.
  destruct (Math_max_spec _ _ Nmin Nv) as (_ & Hminm & Hvm).
  fold m in Nm, Hminm, Hvm.
  destruct (Math_min_spec _ _ Nmax Nm) as (_ & Hcmax & Hcm).
  pose proof (Math_min_not_nan _ _ Nmax Nm) as Nc.
  split; [| split].
  - intros Hlo Hhi.
    assert (Hmv : (m <=? v) = true)
      by (unfold m; apply Math_max_lub; auto using leb_refl).
    apply leb_antisym.
    + eapply leb_trans; [| | | exact Hcm | exact Hmv]; assumption.
    + apply Math_min_glb; auto.
  - intros Hlo.
    assert (Hmm : (m <=? MagnitudeSlider.min p) = true)
      by (unfold m; apply Math_max_lub; auto using leb_refl).
    apply leb_antisym.
    + eapply leb_trans; [| | | exact Hcm | exact Hmm]; assumption.
    + apply Math_min_glb; auto.
  - intros Hhi. apply leb_antisym; [exact Hcmax |].
    apply Math_min_glb; auto using leb_refl.
    eapply leb_trans; [| | | exact Hhi | exact Hvm]; assumption.
Qed.

(** X18.  [clamp] with [min <= max] and no NaN: a value inside the range
    comes back as it is, a value at or below [min] as [min], a value at or
    above [max] as [max] (equal as numbers). *)
Theorem clamp_saturates (p : MagnitudeSlider.Props) (v : float) :
  is_nan (MagnitudeSlider.min p) = false ->
  is_nan (MagnitudeSlider.max p) = false ->
  is_nan v = false ->
  (MagnitudeSlider.min p <=? MagnitudeSlider.max p) = true ->
  ((MagnitudeSlider.min p <=? v) = true -> (v <=? MagnitudeSlider.max p) = true ->
   (MagnitudeSlider.clamp p v =? v) = true)
  /\ ((v <=? MagnitudeSlider.min p) = true ->
      (MagnitudeSlider.clamp p v =? MagnitudeSlider.min p) = true)
  /\ ((MagnitudeSlider.max p <=? v) = true ->
      (MagnitudeSlider.clamp p v =? MagnitudeSlider.max p) = true).
Proof. exact (clamp_between p v). Qed.

Lemma clamp_saturates_witness :
  (MagnitudeSlider.clamp Examples.slider_0_10 4.5 =? 4.5) = true
  /\ (MagnitudeSlider.clamp Examples.slider_0_10 (-3) =? 0) = true
  /\ (MagnitudeSlider.clamp Examples.slider_0_10 12 =? 10) = true.
Proof.
  destruct (clamp_saturates Examples.slider_0_10 4.5 eq_refl eq_refl eq_refl eq_refl)
    as (H1 & _ & _).
  destruct (clamp_saturates Examples.slider_0_10 (-3) eq_refl eq_refl eq_refl eq_refl)
    as (_ & H2 & _).
  destruct (clamp_saturates Examples.slider_0_10 12 eq_refl eq_refl eq_refl eq_refl)
    as (_ & _ & H3).
  split; [exact (H1 eq_refl eq_refl) | split; [exact (H2 eq_refl) | exact (H3 eq_refl)]].
Defined.

Lemma eqb_leb (x y : float) : (x =? y) = true -> (x <=? y) = true /\ (y <=? x) = true.
Proof.
  intros H. destruct (eqb_not_nan _ _ H) as [Nx Ny].
  rewrite eqb_rank in H by assumption. rewrite !leb_rank by assumption.
  rewrite (lex3_antisym (rank x) (rank y)).
  now destruct (lex3 (rank x) (rank y)).
Qed.

(** X19.  A thumb goes where it is put when there is room: for an input
    within [[min, max]], the lower thumb takes the input when the input is at
    most [maxVal - step] and stops at [maxVal - step] otherwise; the upper
    thumb takes the input when it is at least [minVal + step] and stops at
    [minVal + step] otherwise (equal as numbers). *)
Theorem thumb_follows_input (p : MagnitudeSlider.Props) (t : MagnitudeSlider.Thumbs)
  (input : float) :
  (MagnitudeSlider.min p <=? input) = true ->
  (input <=? MagnitudeSlider.max p) = true ->
  let lower := MagnitudeSlider.maxVal t - MagnitudeSlider.step p in
  let upper := MagnitudeSlider.minVal t + MagnitudeSlider.step p in
  ((input <=? lower) = true ->
   (MagnitudeSlider.minVal (MagnitudeSlider.onMinChange p input t) =? input) = true)
  /\ ((lower <=? input) = true ->
      (MagnitudeSlider.minVal (MagnitudeSlider.onMinChange p input t) =? lower) = true)
  /\ ((upper <=? input) = true ->
      (MagnitudeSlider.maxVal (MagnitudeSlider.onMaxChange p input t) =? input) = true)
  /\ ((input <=? upper) = true ->
      (MagnitudeSlider.maxVal (MagnitudeSlider.onMaxChange p input t) =? upper) = true).
Proof.
  intros Hlo Hhi lower upper.
  destruct (leb_not_nan _ _ Hlo) as [Nmin Nv].
  destruct (leb_not_nan _ _ Hhi) as [_ Nmax].
  assert (Hle : (MagnitudeSlider.min p <=? MagnitudeSlider.max p) = true)
    by (eapply leb_trans; [| | | exact Hlo | exact Hhi]; assumption).
  destruct (clamp_bounds p input Nmin Nmax Nv Hle) as (Nc & _ & _).
  destruct (clamp_between p input Nmin Nmax Nv Hle) as (Hin & _ & _).
  destruct (eqb_leb _ _ (Hin Hlo Hhi)) as [Hcv Hvc].
  cbn [MagnitudeSlider.onMinChange MagnitudeSlider.onMaxChange
       MagnitudeSlider.minVal MagnitudeSlider.maxVal MagnitudeSlider.minGap].
  fold lower upper.
  split; [| split; [| split]]; intros H.
  - destruct (leb_not_nan _ _ H) as [_ Nl].
    destruct (Math_min_spec _ _ Nc Nl) as (_ & Hl & Hr).
    pose proof (Math_min_not_nan _ _ Nc Nl) as Nr.
    apply leb_antisym.
    + eapply leb_trans; [| | | exact Hl | exact Hcv]; assumption.
    + apply Math_min_glb; auto.
  - destruct (leb_not_nan _ _ H) as [Nl _].
    destruct (Math_min_spec _ _ Nc Nl) as (_ & Hl & Hr).
    apply leb_antisym; [exact Hr |].
    apply Math_min_glb; auto using leb_refl.
    eapply leb_trans; [| | | exact H | exact Hvc]; assumption.
  - destruct (leb_not_nan _ _ H) as [Nu _].
    destruct (Math_max_spec _ _ Nc Nu) as (_ & Hl & Hr).
    pose proof (Math_max_not_nan _ _ Nc Nu) as Nr.
    apply leb_antisym.
    + apply Math_max_lub; auto.
    + eapply leb_trans; [| | | exact Hvc | exact Hl]; assumption.
  - destruct (leb_not_nan _ _ H) as [_ Nu].
    destruct (Math_max_spec _ _ Nc Nu) as (_ & Hl & Hr).
    apply leb_antisym; [| exact Hr].
    apply Math_max_lub; auto using leb_refl.
    eapply leb_trans; [| | | exact Hcv | exact H]; assumption.
Qed.

Lemma thumb_follows_input_witness :
  (MagnitudeSlider.minVal
     (MagnitudeSlider.onMinChange Examples.slider_0_10 5 Examples.thumbs_4_6) =? 5) = true
  /\ (MagnitudeSlider.maxVal
        (MagnitudeSlider.onMaxChange Examples.slider_0_10 3 Examples.thumbs_4_6)
      =? 4 + 0.1) = true.
Proof.
  destruct (thumb_follows_input Examples.slider_0_10 Examples.thumbs_4_6 5
              eq_refl eq_refl) as (H1 & _).
  destruct (thumb_follows_input Examples.slider_0_10 Examples.thumbs_4_6 3
              eq_refl eq_refl) as (_ & _ & _ & H4).
  split; [exact (H1 eq_refl) | exact (H4 eq_refl)].
Defined.

Lemma min_change_keeps (p : MagnitudeSlider.Props) (t : MagnitudeSlider.Thumbs)
  (input : float) :
  slider_invariant p t = true ->
  is_nan input = false ->
  slider_invariant p (MagnitudeSlider.onMinChange p input t) = true.
Proof.
  unfold slider_invariant, within_bounds, gap_kept. intros Hinv Hv.
  apply andb_prop in Hinv as [Hb Hgap].
  apply andb_prop in Hb as [Hb H4]. apply andb_prop in Hb as [Hb H3].
  apply andb_prop in Hb as [H1 H2].
  destruct (leb_not_nan _ _ H1) as [Nmin Nlo].
  destruct (leb_not_nan _ _ H4) as [Nhi Nmax].
  destruct (leb_not_nan _ _ Hgap) as [_ Noff].
  assert (Hle : (MagnitudeSlider.min p <=? MagnitudeSlider.max p) = true)
    by (eapply leb_trans; [| | | exact H1 | exact H2]; assumption).
  destruct (handlers_cap p t input Nmin Nmax Hv Hle) as [Hlower _].
  destruct (Hlower Noff) as (Esame & Hmax' & Hgap' & Hmin').
  cbv zeta in Esame, Hmax', Hgap', Hmin'. cbn [MagnitudeSlider.handle] in *.
  rewrite Esame, H3, H4, Hmax', Hgap'.
  rewrite Hmin'; [reflexivity |].
  eapply leb_trans; [| | | exact H1 | exact Hgap]; assumption.
Qed.

(** X20.  However often the lower thumb is moved, with inputs that are
    numbers, the upper thumb stays where it was and the invariant (both
    thumbs within [[min, max]], [minVal <= maxVal - step]) holds after the
    last change as it did before the first. *)
Theorem lower_thumb_runs (p : MagnitudeSlider.Props) (t : MagnitudeSlider.Thumbs)
  (inputs : list float) :
  slider_invariant p t = true ->
  forallb (fun v => negb (is_nan v)) inputs = true ->
  let t' := SliderTrack.handle_all p t (map MagnitudeSlider.MinThumb inputs) in
  slider_invariant p t' = true
  /\ MagnitudeSlider.maxVal t' = MagnitudeSlider.maxVal t.
Proof.
  unfold SliderTrack.handle_all. revert t.
  induction inputs as [| v vs IH]; intros t Hinv Hall; cbn [map fold_left forallb] in *.
  - split; [exact Hinv | reflexivity].
  - apply andb_prop in Hall as [Hv Hall]. apply negb_true_iff in Hv.
    destruct (IH (MagnitudeSlider.onMinChange p v t)
                (min_change_keeps p t v Hinv Hv) Hall) as [H1 H2].
    split; [exact H1 | exact H2].
Qed.

Lemma lower_thumb_runs_witness :
  let p := Examples.slider_0_10 in
  let t' := SliderTrack.handle_all p Examples.thumbs_4_6
              (map MagnitudeSlider.MinThumb [7; -2; 5.5; 100]) in
  slider_invariant p t' = true /\ MagnitudeSlider.maxVal t' = 6.
Proof.
  intros p t'.
  exact (lower_thumb_runs Examples.slider_0_10 Examples.thumbs_4_6
           [7; -2; 5.5; 100] eq_refl eq_refl).
Defined.

Lemma nan_Prim2SF (x : float) : Prim2SF x = S754_nan -> is_nan x = true.
Proof. intros H. unfold is_nan. rewrite eqb_spec, H. reflexivity. Qed.

Lemma sub_nan_l (x y : float) : is_nan x = true -> is_nan (x - y) = true.
Proof.
  intros H. apply nan_Prim2SF. rewrite sub_spec, (Prim2SF_nan x H). reflexivity.
Qed.

Lemma add_nan_l (x y : float) : is_nan x = true -> is_nan (x + y) = true.
Proof.
  intros H. apply nan_Prim2SF. rewrite add_spec, (Prim2SF_nan x H). reflexivity.
Qed.

Lemma Math_min_nan (a b : float) :
  is_nan a = true \/ is_nan b = true -> is_nan (JS.Math_min a b) = true.
Proof.
  unfold JS.Math_min. intros [H | H]; rewrite H, ?orb_true_r; reflexivity.
Qed.

Lemma Math_max_nan (a b : float) :
  is_nan a = true \/ is_nan b = true -> is_nan (JS.Math_max a b) = true.
Proof.
  unfold JS.Math_max. intros [H | H]; rewrite H, ?orb_true_r; reflexivity.
Qed.




(** X22.  Once both thumbs are NaN no run of changes, of either thumb and
    with whatever inputs, brings a number back. *)
Theorem nan_thumbs_stay (p : MagnitudeSlider.Props) (t : MagnitudeSlider.Thumbs)
  (cs : list MagnitudeSlider.change) :
  is_nan (MagnitudeSlider.minVal t) = true ->
  is_nan (MagnitudeSlider.maxVal t) = true ->
  let t' := SliderTrack.handle_all p t cs in
  is_nan (MagnitudeSlider.minVal t') = true
  /\ is_nan (MagnitudeSlider.maxVal t') = true.
Proof.
  unfold SliderTrack.handle_all. revert t.
  induction cs as [| c cs IH]; intros t Hlo Hhi; cbn [fold_left].
  - split; assumption.
  - apply IH; destruct c as [v | v];
      cbn [MagnitudeSlider.handle MagnitudeSlider.onMinChange
           MagnitudeSlider.onMaxChange MagnitudeSlider.minVal MagnitudeSlider.maxVal];
      try assumption.
    + apply Math_min_nan. right. now apply sub_nan_l.
    + apply Math_max_nan. right. now apply add_nan_l.
Qed.

Lemma nan_thumbs_stay_witness :
  let t' := SliderTrack.handle_all Examples.slider_0_10
              {| MagnitudeSlider.minVal := nan; MagnitudeSlider.maxVal := nan |}
              [MagnitudeSlider.MinThumb 3; MagnitudeSlider.MaxThumb 8;
               MagnitudeSlider.MinThumb 1] in
  is_nan (MagnitudeSlider.minVal t') = true
  /\ is_nan (MagnitudeSlider.maxVal t') = true.
Proof.
  intros t'.
  exact (nan_thumbs_stay Examples.slider_0_10
           {| MagnitudeSlider.minVal := nan; MagnitudeSlider.maxVal := nan |}
           [MagnitudeSlider.MinThumb 3; MagnitudeSlider.MaxThumb 8;
            MagnitudeSlider.MinThumb 1] eq_refl eq_refl).
Defined.

(** X23.  The highlighted range's width is never a negative number: it is
    NaN exactly when [maxPct - minPct] is NaN, and otherwise it is at least
    0, equal to 0 when the difference is at most 0 and to the difference when
    that is at least 0. *)
Theorem width_not_negative (p : MagnitudeSlider.Props) (t : MagnitudeSlider.Thumbs) :
  let d := SliderTrack.maxPct p t - SliderTrack.minPct p t in
  is_nan (SliderTrack.width p t) = is_nan d
  /\ (SliderTrack.width p t <? 0) = false
  /\ (is_nan d = false ->
      (0 <=? SliderTrack.width p t) = true
      /\ ((d <=? 0) = true -> (SliderTrack.width p t =? 0) = true)
      /\ ((0 <=? d) = true -> (SliderTrack.width p t =? d) = true)).
Proof.
  intros d. unfold SliderTrack.width. fold d.
  destruct (is_nan d) eqn:Nd.
  - assert (Hn : is_nan (JS.Math_max 0 d) = true) by (apply Math_max_nan; now right).
    split; [exact Hn | split; [| discriminate]].
    rewrite ltb_spec, (Prim2SF_nan _ Hn). reflexivity.
  - assert (N0 : is_nan 0 = false) by reflexivity.
    pose proof (Math_max_not_nan _ _ N0 Nd) as Nw.
    destruct (Math_max_spec _ _ N0 Nd) as (_ & H0 & Hd).
    assert (Hlt : (JS.Math_max 0 d <? 0) = false).
    { destruct (JS.Math_max 0 d <? 0) eqn:E; [| reflexivity].
      pose proof (ltb_leb _ _ Nw N0 E) as Hle.
      pose proof (leb_antisym _ _ Hle H0) as Heq.
      destruct (eqb_ltb_false _ _ Heq) as [Hf _]. congruence. }
    split; [exact Nw | split; [exact Hlt |]]. intros _.
    split; [exact H0 | split]; intros H.
    + apply leb_antisym; [| exact H0].
      apply Math_max_lub; auto using leb_refl.
    + apply leb_antisym; [| exact Hd].
      apply Math_max_lub; auto using leb_refl.
Qed.
